(** * Detached instances of Ganache: a shallow embedding of [detach.ts]

    The development follows [packages/cli/src/detach.ts]: the registry of
    instance files kept under the data directory, the reconciliation of that
    registry against the process table ([getDetachedInstances]), the
    termination request ([stopDetachedInstance]), the spawn with its readiness
    handshake ([startDetachedInstance]) and the flattening of the parsed
    arguments into the child's command line ([createFlatChildArgs]).

    JavaScript's effects are explicit: every operation is a function from a
    [World] (registry directory, process table, signals, console, random
    names) to a new [World] and an [Outcome] (a returned value, a thrown
    error, or a promise that never settles). *)

From stdpp Require Import gmap strings list fin_maps pretty.
From Stdlib Require Import ZArith Ascii String Sorting.Sorted.

Local Open Scope string_scope.
Local Open Scope list_scope.
Local Open Scope Z_scope.

Set Warnings "-register-all".

(** ** JavaScript values *)

(** The values a parsed argument object holds. A number is an integer (the
    ports, counts and limits of the command line); an object is the list of
    its own enumerable properties in the order [for ... in] visits them, which
    also covers arrays (their keys are the indices). *)
Inductive JSValue : Type :=
| JUndefined
| JNull
| JBool (b : bool)
| JNum (n : Z)
| JStr (s : string)
| JObj (props : list (string * JSValue)).

(** [typeof value === "object"]: true of objects and of [null]. *)
Definition typeof_object (v : JSValue) : bool :=
  match v with
  | JNull | JObj _ => true
  | _ => false
  end.

(** The primitive (scalar) values of the language. *)
Definition primitive (v : JSValue) : bool :=
  match v with
  | JObj _ => false
  | _ => true
  end.

(** A number is either NaN or an integer: file names that are not numerals
    parse to NaN. *)
Inductive number : Type :=
| NaN
| Num (n : Z).

(** [`${n}`] for a number: [NaN], or the decimal numeral of an integer. That
    is the string of the template for the integers a double holds exactly
    (below 2^53 in size; the pids of an operating system are far below);
    larger numbers are out of the range of the model. *)
Definition number_toString (n : number) : string :=
  match n with
  | NaN => "NaN"
  | Num z => pretty z
  end.

(** [`${value}`]: the string a template literal interpolates. Objects do not
    reach the template of [createFlatChildArgs]; their rendering is the
    default [Object.prototype.toString]. *)
Definition template (v : JSValue) : string :=
  match v with
  | JUndefined => "undefined"
  | JNull => "null"
  | JBool true => "true"
  | JBool false => "false"
  | JNum n => pretty n
  | JStr s => s
  | JObj _ => "[object Object]"
  end.

(** ** createFlatChildArgs *)

(** [const prefix = namespace === null ? "" : `${namespace}.`] *)
Definition prefix_of (namespace : option string) : string :=
  match namespace with
  | None => ""
  | Some ns => ns +:+ "."
  end.

(** The closure [flatten] mutates the array [flattenedArgs]; the array is
    threaded through as the last argument and returned. [unshift] puts the
    value in front, [push] at the end. The [for ... in] of a value that is
    not an object ([null] included) has no iteration. *)
Fixpoint flatten (namespace : option string) (args : JSValue)
    (flattenedArgs : list JSValue) : list JSValue :=
  match args with
  | JObj props =>
      let prefix := prefix_of namespace in
      (fix each (ps : list (string * JSValue)) (flattenedArgs : list JSValue)
         : list JSValue :=
         match ps with
         | [] => flattenedArgs
         | (key, value) :: rest =>
             if String.eqb key "flavor" then
               each rest (value :: flattenedArgs)
             else if negb (String.eqb key "action") then
               if typeof_object value then
                 each rest (flatten (Some (prefix +:+ key)) value flattenedArgs)
               else
                 each rest
                   (flattenedArgs ++
                    [JStr ("--" +:+ prefix +:+ key +:+ "=" +:+ template value)])
             else each rest flattenedArgs
         end) props flattenedArgs
  | _ => flattenedArgs
  end.

Definition createFlatChildArgs (args : JSValue) : list JSValue :=
  flatten None args [].


(** ** Numbers read from file names *)

(** White space that [parseInt] skips (the ASCII part of it). *)
Definition is_whitespace (c : ascii) : bool :=
  let n := N_of_ascii c in
  (N.eqb n 32 || (N.leb 9 n && N.leb n 13))%bool.

Fixpoint trim_start (s : string) : string :=
  match s with
  | String c rest => if is_whitespace c then trim_start rest else s
  | EmptyString => s
  end.

(** The value of [c] as a digit of the given radix, if it is one. *)
Definition digit_value (radix : Z) (c : ascii) : option Z :=
  let n := Z.of_N (N_of_ascii c) in
  let d :=
    if (48 <=? n) && (n <=? 57) then Some (n - 48)
    else if (97 <=? n) && (n <=? 122) then Some (n - 87)
    else if (65 <=? n) && (n <=? 90) then Some (n - 55)
    else None in
  match d with
  | Some v => if v <? radix then Some v else None
  | None => None
  end.

(** The number written by the longest prefix of digits; [None] when that
    prefix is empty. *)
Fixpoint parse_digits (radix : Z) (s : string) (acc : option Z) : option Z :=
  match s with
  | String c rest =>
      match digit_value radix c with
      | Some d => parse_digits radix rest (Some (radix * default 0 acc + d))
      | None => acc
      end
  | EmptyString => acc
  end.

(** [parseInt(string)] without a radix: leading white space, a sign, the
    prefix [0x] for radix 16, then digits; NaN when no digit follows. The
    pids of a file name are far below 2^53, where a double is exact. *)
Definition parseInt (s : string) : number :=
  let s1 := trim_start s in
  let '(sign, s2) :=
    match s1 with
    | String "-" rest => (-1, rest)
    | String "+" rest => (1, rest)
    | _ => (1, s1)
    end in
  let '(radix, s3) :=
    match s2 with
    | String "0" (String "x" rest) => (16, rest)
    | String "0" (String "X" rest) => (16, rest)
    | _ => (10, s2)
    end in
  match parse_digits radix s3 None with
  | Some v => Num (sign * v)
  | None => NaN
  end.

(** [a === b] on numbers: NaN is equal to nothing. *)
Definition number_eqb (a b : number) : bool :=
  match a, b with
  | Num x, Num y => x =? y
  | _, _ => false
  end.

(** ** The data of the registry and of the operating system *)

(** [DetachedInstance]. [host], [port] and [flavor] hold what the arguments
    object carries: the types of TypeScript are erased when the code runs. *)
Record DetachedInstance : Type := {
  instanceName : string;
  pid : Z;
  startTime : Z;
  host : JSValue;
  port : JSValue;
  flavor : JSValue;
  cmd : string;
  version : string
}.

(** A row of [psList()]: only [pid] and [cmd] are read. *)
Module Ps.
Record t : Type := { pid : Z; cmd : string }.
End Ps.

(** [JSON.stringify] and [JSON.parse] at the type of the instance record;
    [JSON_parse] is [None] where parsing the text (or reading [cmd] off the
    parsed value) throws. *)
Class JSON : Type := {
  JSON_stringify : DetachedInstance -> string;
  JSON_parse : string -> option DetachedInstance
}.

Inductive JSError : Type :=
| TypeError (message : string)
| SyntaxError (message : string)
| SystemError (code : string)
| Error (message : string).

(** [err.message] *)
Definition message_of (e : JSError) : string :=
  match e with
  | TypeError m | SyntaxError m | Error m => m
  | SystemError c => c
  end.

(** What the child does on the control channel once the parent listens. The
    code of an exit is a number, or [null] ([None]) when a signal ended the
    child. *)
Inductive ChildEvent : Type :=
| Message (m : JSValue)
| ErrorEvent (err : JSError)
| Exit (code : option Z).

(** The child process a [fork] yields: [child_pid] is undefined ([None]) when
    the launch failed. *)
Record ChildProcess : Type := {
  child_pid : option Z;
  child_cmd : string;
  child_events : list ChildEvent
}.

(** Everything the module reads or writes outside its own variables.
    - [fs]: the files of [dataPath], name to content;
    - [processes]: the table [psList()] reports;
    - [deliverable]: whether [process.kill(pid, "SIGTERM")] succeeds at the
      moment it is called; it is not tied to [processes], since a process can
      exit after the table was read, or belong to another user;
    - [sigterm]: the pids [process.kill] was called on, oldest first;
    - [console]: the lines of [console.error], oldest first;
    - [exitCode]: [process.exitCode], [None] while it is unset (undefined,
      or null);
    - [clock]: [Date.now()];
    - [draws]: the names the coming calls of [createInstanceName()] return;
    - [os_child]: the child the operating system gives to the next [fork];
    - [forked]: the calls of [fork], module and arguments. *)
Record World : Type := {
  fs : gmap string string;
  processes : list Ps.t;
  deliverable : Z -> bool;
  sigterm : list Z;
  console : list string;
  exitCode : option Z;
  clock : Z;
  draws : list string;
  os_child : ChildProcess;
  forked : list (string * list JSValue)
}.

Definition set_fs (f : gmap string string -> gmap string string) (w : World) : World :=
  {| fs := f (fs w); processes := processes w; deliverable := deliverable w;
     sigterm := sigterm w; console := console w; exitCode := exitCode w;
     clock := clock w; draws := draws w; os_child := os_child w;
     forked := forked w |}.

Definition set_processes (f : list Ps.t -> list Ps.t) (w : World) : World :=
  {| fs := fs w; processes := f (processes w); deliverable := deliverable w;
     sigterm := sigterm w; console := console w; exitCode := exitCode w;
     clock := clock w; draws := draws w; os_child := os_child w;
     forked := forked w |}.

Definition set_sigterm (f : list Z -> list Z) (w : World) : World :=
  {| fs := fs w; processes := processes w; deliverable := deliverable w;
     sigterm := f (sigterm w); console := console w; exitCode := exitCode w;
     clock := clock w; draws := draws w; os_child := os_child w;
     forked := forked w |}.

Definition set_console (f : list string -> list string) (w : World) : World :=
  {| fs := fs w; processes := processes w; deliverable := deliverable w;
     sigterm := sigterm w; console := f (console w); exitCode := exitCode w;
     clock := clock w; draws := draws w; os_child := os_child w;
     forked := forked w |}.

Definition set_exitCode (c : option Z) (w : World) : World :=
  {| fs := fs w; processes := processes w; deliverable := deliverable w;
     sigterm := sigterm w; console := console w; exitCode := c;
     clock := clock w; draws := draws w; os_child := os_child w;
     forked := forked w |}.

Definition set_draws (d : list string) (w : World) : World :=
  {| fs := fs w; processes := processes w; deliverable := deliverable w;
     sigterm := sigterm w; console := console w; exitCode := exitCode w;
     clock := clock w; draws := d; os_child := os_child w;
     forked := forked w |}.

Definition set_forked
    (f : list (string * list JSValue) -> list (string * list JSValue))
    (w : World) : World :=
  {| fs := fs w; processes := processes w; deliverable := deliverable w;
     sigterm := sigterm w; console := console w; exitCode := exitCode w;
     clock := clock w; draws := draws w; os_child := os_child w;
     forked := f (forked w) |}.

(** ** Calls that return, throw, or never settle *)

Inductive Outcome (A : Type) : Type :=
| Returned (a : A)
| Thrown (e : JSError)
| Pending.
Arguments Returned {A} a.
Arguments Thrown {A} e.
Arguments Pending {A}.

(** A call runs in a world and leaves a world, also when it throws: what it
    wrote before the throw stays written. [Pending] is a call that gives no
    result: the promise it awaits never settles, or the loop it runs has not
    ended when the recorded [draws] run out. *)
Definition M (A : Type) : Type := World -> World * Outcome A.

Definition ret {A} (a : A) : M A := fun w => (w, Returned a).

Definition throw {A} (e : JSError) : M A := fun w => (w, Thrown e).

Definition bind {A B} (m : M A) (k : A -> M B) : M B :=
  fun w =>
    match m w with
    | (w1, Returned a) => k a w1
    | (w1, Thrown e) => (w1, Thrown e)
    | (w1, Pending) => (w1, Pending)
    end.

Notation "'let*' x ':=' m 'in' k" := (bind m (fun x => k))
  (at level 10, x pattern, m at level 100, k at level 200).

(** [try { body } catch (err) { handler }] *)
Definition try_catch {A} (body : M A) (handler : JSError -> M A) : M A :=
  fun w =>
    match body w with
    | (w1, Thrown e) => handler e w1
    | r => r
    end.

(** [try { body } finally { finalizer }]: the finalizer runs whichever way the
    body ends, and the body's completion stands unless the finalizer throws. *)
Definition try_finally {A} (body : M A) (finalizer : M unit) : M A :=
  fun w =>
    match body w with
    | (w1, Pending) => (w1, Pending)
    | (w1, r) =>
        match finalizer w1 with
        | (w2, Returned _) => (w2, r)
        | (w2, Thrown e) => (w2, Thrown e)
        | (w2, Pending) => (w2, Pending)
        end
    end.

(** ** The file system, the process table and the console *)

(** [existsSync(`${dataPath}/${name}`)] *)
Definition existsSync (name : string) : M bool :=
  fun w => (w, Returned (bool_decide (is_Some (fs w !! name)))).

(** [rmSync(`${dataPath}/${name}`)]: throws when there is no such file. *)
Definition rmSync (name : string) : M unit :=
  fun w =>
    match fs w !! name with
    | Some _ => (set_fs (delete name) w, Returned tt)
    | None => (w, Thrown (SystemError "ENOENT"))
    end.

(** [writeFileSync(`${dataPath}/${name}`, content)] *)
Definition writeFileSync (name content : string) : M unit :=
  fun w => (set_fs (insert name content) w, Returned tt).

(** [readdirSync(dataPath)]: the names of the files, in the order of the
    directory. *)
Definition readdirSync : M (list string) :=
  fun w => (w, Returned (map_to_list (fs w)).*1).

(** [readFileSync(path.join(dataPath, name), { encoding: "utf8" })] *)
Definition readFileSync (name : string) : M string :=
  fun w =>
    match fs w !! name with
    | Some content => (w, Returned content)
    | None => (w, Thrown (SystemError "ENOENT"))
    end.

(** [await psList()] *)
Definition psList : M (list Ps.t) :=
  fun w => (w, Returned (processes w)).

(** [process.kill(pid, "SIGTERM")]: throws when the signal cannot be
    delivered, and when [pid] is not a number. [ESRCH] stands for the error
    of the operating system, whichever it is (no such process, or no
    permission); no handler in the module looks at it. *)
Definition process_kill (pid : number) : M unit :=
  match pid with
  | NaN => throw (TypeError "ERR_INVALID_ARG_TYPE")
  | Num n =>
      fun w =>
        let w1 := set_sigterm (fun l => l ++ [n]) w in
        if deliverable w n then (w1, Returned tt)
        else (w1, Thrown (SystemError "ESRCH"))
  end.

(** [console.error(line)] *)
Definition console_error (line : string) : M unit :=
  fun w => (set_console (fun l => l ++ [line]) w, Returned tt).

(** [Date.now()] *)
Definition Date_now : M Z :=
  fun w => (w, Returned (clock w)).

(** [array.find(predicate)] is [List.find]; [array.indexOf(x)] is the first
    index holding [x], or -1. *)
Fixpoint indexOf (l : list string) (x : string) : Z :=
  match l with
  | [] => -1
  | y :: rest =>
      if String.eqb y x then 0
      else let i := indexOf rest x in if i =? -1 then -1 else i + 1
  end.

(** [array.sort(compare)]: the sort is stable, and for a comparator that
    orders the elements consistently its result is the one of inserting each
    element, from the last to the first, in front of the first element it
    does not have to follow. *)
Section Sort.
Context {A : Type} (compare : A -> A -> Z).

Fixpoint sort_insert (x : A) (sorted : list A) : list A :=
  match sorted with
  | [] => [x]
  | y :: rest =>
      if compare x y <=? 0 then x :: y :: rest
      else y :: sort_insert x rest
  end.

Fixpoint sort (l : list A) : list A :=
  match l with
  | [] => []
  | x :: rest => sort_insert x (sort rest)
  end.
End Sort.

(** ** The registry *)

Definition START_ERROR : string :=
  "An error ocurred spawning a detached instance of Ganache:".

Definition READY_MESSAGE : JSValue := JStr "ready".

(** [removeDetachedInstanceFile(pid)] *)
Definition removeDetachedInstanceFile (pid : number) : M bool :=
  let instanceFilename := number_toString pid in
  let* present := existsSync instanceFilename in
  if (present : bool) then
    let* _ := rmSync instanceFilename in
    ret true
  else ret false.

Section Registry.
Context {json : JSON}.

(** One turn of the loop of [getDetachedInstances], for [files[i]]. The
    [try] block reads and parses the file; its [catch] block runs for any
    error thrown there. *)
Definition reconcileFile (processes : list Ps.t) (filename : string)
    (instances : list DetachedInstance) : M (list DetachedInstance) :=
  let pid := parseInt filename in
  let foundProcess :=
    List.find (fun p => number_eqb (Num (Ps.pid p)) pid) processes in
  let* (shouldRemoveFile, instances) :=
    match foundProcess with
    | Some foundProcess =>
        try_catch
          (let* content := readFileSync filename in
           match JSON_parse content with
           | Some instance =>
               if negb (String.eqb (Ps.cmd foundProcess) (cmd instance))
               then ret (true, instances)
               else ret (false, instances ++ [instance])
           | None => throw (SyntaxError "Unexpected token")
           end)
          (fun err =>
             let* _ := console_error
               ("Instance data corrupted. Process has been killed (PID "
                +:+ number_toString pid +:+ ")") in
             let* _ := process_kill pid in
             ret (true, instances))
    | None => ret (true, instances)
    end in
  if (shouldRemoveFile : bool) then
    let* _ := removeDetachedInstanceFile pid in
    ret instances
  else ret instances.

(** [for (let i = 0; i < files.length; i++) ...] *)
Fixpoint reconcileFiles (processes : list Ps.t) (files : list string)
    (instances : list DetachedInstance) : M (list DetachedInstance) :=
  match files with
  | [] => ret instances
  | filename :: rest =>
      let* instances := reconcileFile processes filename instances in
      reconcileFiles processes rest instances
  end.

Definition getDetachedInstances : M (list DetachedInstance) :=
  let* files := readdirSync in
  let* processes := psList in
  let* instances := reconcileFiles processes files [] in
  ret (sort (fun a b => startTime b - startTime a) instances).

(** The loop returns the first instance with the name; falling off the end
    of the function returns [undefined]. *)
Definition findDetachedInstanceByName (name : string)
    : M (option DetachedInstance) :=
  let* instances := getDetachedInstances in
  ret (List.find (fun i => String.eqb (instanceName i) name) instances).

(** [return true] follows the [try] statement at once, so it is the value
    the [try] block completes with. *)
Definition stopDetachedInstance (name : string) : M bool :=
  let* instance := findDetachedInstanceByName name in
  match instance with
  | Some instance =>
      try_finally
        (try_catch
           (let* _ := process_kill (Num (pid instance)) in ret true)
           (fun err => ret false))
        (let* _ := removeDetachedInstanceFile (Num (pid instance)) in ret tt)
  | None => ret false
  end.
End Registry.

(** ** The spawner *)

(** [object[key]]: reading a property of [undefined] or [null] throws; a
    property the object does not have reads as [undefined]. *)
Definition get_prop (object : JSValue) (key : string) : M JSValue :=
  match object with
  | JUndefined | JNull =>
      throw (TypeError ("Cannot read properties of " +:+ template object))
  | JObj props =>
      ret (match List.find (fun kv => String.eqb (fst kv) key) props with
           | Some kv => snd kv
           | None => JUndefined
           end)
  | _ => ret JUndefined
  end.

(** [message === READY_MESSAGE] *)
Definition is_ready_message (m : JSValue) : bool :=
  match m, READY_MESSAGE with
  | JStr s, JStr r => String.eqb s r
  | _, _ => false
  end.

Definition newline : string := String (ascii_of_nat 10) EmptyString.

(** [fork(module, childArgs, { detached: true, ... })]: the operating system
    decides the child; a child that has a pid shows in the process table. *)
Definition fork (module : string) (childArgs : list JSValue) : M ChildProcess :=
  fun w =>
    let child := os_child w in
    let w1 := set_forked (fun l => l ++ [(module, childArgs)]) w in
    match child_pid child with
    | Some n =>
        (set_processes
           (fun l => l ++ [{| Ps.pid := n; Ps.cmd := child_cmd child |}]) w1,
         Returned child)
    | None => (w1, Returned child)
    end.

(** [createInstanceName()] is the next recorded draw. The loop
    [do { instanceName = createInstanceName(); }
     while (instanceNames.indexOf(instanceName) !== -1)]
    returns the first draw that is not in [instanceNames], with the draws
    that are left; [None] when every recorded draw is taken. *)
Fixpoint nameLoop (draws instanceNames : list string)
    : option (string * list string) :=
  match draws with
  | [] => None
  | instanceName :: rest =>
      if negb (indexOf instanceNames instanceName =? -1)
      then nameLoop rest instanceNames
      else Some (instanceName, rest)
  end.

Definition chooseInstanceName (instanceNames : list string) : M string :=
  fun w =>
    match nameLoop (draws w) instanceNames with
    | Some (instanceName, rest) => (set_draws rest w, Returned instanceName)
    | None => (set_draws [] w, Pending)
    end.

(** [await new Promise((resolve, reject) => { child.on("message", ...);
    child.on("error", ...); child.on("exit", ...); })]: the first event
    that settles the promise decides; a message other than the ready
    message settles nothing. *)
Fixpoint awaitReady (events : list ChildEvent) : M unit :=
  match events with
  | [] => fun w => (w, Pending)
  | Message m :: rest =>
      if is_ready_message m then ret tt else awaitReady rest
  | ErrorEvent err :: _ =>
      let* _ := console_error (START_ERROR +:+ newline +:+ message_of err) in
      fun w => (set_exitCode (Some 1) w, Thrown err)
  | Exit code :: _ =>
      fun w =>
        (set_exitCode
           (match code with
            | Some c => Some (if c =? 0 then 1 else c)
            | None => None
            end) w,
         Thrown (Error (START_ERROR +:+ newline +:+
                        "The detached instance exited with error code: "
                        +:+ match code with
                            | Some c => pretty c
                            | None => "null"
                            end)))
  end.

Section Spawner.
Context {json : JSON}.

(** The handles of the child ([stderr.pipe], [stderr.destroy], [unref],
    [disconnect]) touch neither the registry nor the process table and are
    left out. Past the lookup of [cmd] the child has a pid, the one of the
    row that was found. *)
Definition startDetachedInstance (module : string) (args : JSValue)
    (version : string) : M DetachedInstance :=
  let* flavor := get_prop args "flavor" in
  let childArgs := createFlatChildArgs args in
  let* child := fork module childArgs in
  let* ps := psList in
  let found :=
    List.find
      (fun p => match child_pid child with
                | Some n => Ps.pid p =? n
                | None => false
                end) ps in
  let* cmd :=
    match found with
    | Some p => ret (Ps.cmd p)
    | None => throw (TypeError "Cannot read properties of undefined")
    end in
  let* instances := getDetachedInstances in
  let instanceNames := map instanceName instances in
  let* instanceName := chooseInstanceName instanceNames in
  let* _ := awaitReady (child_events child) in
  let* startTime := Date_now in
  let* server := get_prop args "server" in
  let* host := get_prop server "host" in
  let* port := get_prop server "port" in
  let instance :=
    {| startTime := startTime;
       pid := match found with Some p => Ps.pid p | None => 0 end;
       instanceName := instanceName;
       host := host;
       port := port;
       flavor := flavor;
       cmd := cmd;
       version := version |} in
  let instanceFilename := number_toString (Num (pid instance)) in
  let* _ := writeFileSync instanceFilename (JSON_stringify instance) in
  ret instance.
End Spawner.


(** ** A concrete world, for examples *)

Module Demo.

Definition record (name : string) (p t : Z) (c : string) : DetachedInstance :=
  {| instanceName := name; pid := p; startTime := t;
     host := JStr "127.0.0.1"; port := JNum 8545; flavor := JStr "ethereum";
     cmd := c; version := "7.0.0" |}.

Definition alpha : DetachedInstance := record "alpha" 100 5000 "node ganache".
Definition beta : DetachedInstance := record "beta" 200 7000 "node ganache".
Definition gamma : DetachedInstance := record "gamma" 300 6000 "node ganache".

(** A codec that knows three texts; every other text fails to parse. *)
Definition codec : JSON := {|
  JSON_stringify i := "{" +:+ instanceName i +:+ "}";
  JSON_parse s :=
    if String.eqb s "{alpha}" then Some alpha
    else if String.eqb s "{beta}" then Some beta
    else if String.eqb s "{gamma}" then Some gamma
    else None
|}.

Definition idle_child : ChildProcess :=
  {| child_pid := None; child_cmd := ""; child_events := [] |}.

Definition world (files : list (string * string)) (ps : list Ps.t)
    (signal : Z -> bool) : World :=
  {| fs := list_to_map files; processes := ps; deliverable := signal;
     sigterm := []; console := []; exitCode := None; clock := 9000;
     draws := []; os_child := idle_child; forked := [] |}.

Definition proc (p : Z) (c : string) : Ps.t := {| Ps.pid := p; Ps.cmd := c |}.

(** Three live instances. *)
Definition three_live : World :=
  world [("100", "{alpha}"); ("200", "{beta}"); ("300", "{gamma}")]
        [proc 100 "node ganache"; proc 200 "node ganache";
         proc 300 "node ganache"]
        (fun _ => true).

(** The pid 300 of gamma now belongs to an editor. *)
Definition pid_reused : World :=
  world [("100", "{alpha}"); ("300", "{gamma}")]
        [proc 100 "node ganache"; proc 300 "vim notes.txt"]
        (fun _ => true).

(** Two live instances; [signal] says which pids a signal reaches. *)
Definition two_live (signal : Z -> bool) : World :=
  world [("100", "{alpha}"); ("200", "{beta}")]
        [proc 100 "node ganache"; proc 200 "node ganache"]
        signal.

(** The file of gamma outlived its process. *)
Definition one_stale : World :=
  world [("100", "{alpha}"); ("300", "{gamma}")]
        [proc 100 "node ganache"]
        (fun _ => true).

(** A file that does not parse, at a pid a process holds that the signal
    does not reach (the process left after the table was read, or belongs
    to another user). *)
Definition corrupt_unreachable : World :=
  world [("400", "junk")] [proc 400 "vim notes.txt"] (fun _ => false).

Definition args : JSValue :=
  JObj [("flavor", JStr "ethereum"); ("action", JStr "start-detached");
        ("server", JObj [("host", JStr "127.0.0.1"); ("port", JNum 8545)])].

(** An empty registry and a child that says hello and exits with 0 before
    it is ready. *)
Definition child_exits : World :=
  {| fs := ∅; processes := []; deliverable := fun _ => true;
     sigterm := []; console := []; exitCode := None; clock := 9000;
     draws := ["sweet_pie"];
     os_child := {| child_pid := Some 400; child_cmd := "node ganache";
                    child_events := [Message (JStr "hello"); Exit (Some 0)] |};
     forked := [] |}.

(** A file that does not parse at a pid a process holds within reach of
    the signal, beside the live instance alpha. *)
Definition corrupt_reachable : World :=
  world [("100", "{alpha}"); ("400", "junk")]
        [proc 100 "node ganache"; proc 400 "vim notes.txt"]
        (fun _ => true).

(** The record of beta at a pid an editor now holds, behind a file that
    does not parse at a pid the signal does not reach. *)
Definition reused_behind_corrupt : World :=
  world [("100", "junk"); ("200", "{beta}")]
        [proc 100 "vim notes.txt"; proc 200 "vim todo.txt"]
        (fun _ => false).


(** An empty registry and a child that becomes ready; the clock, the pid
    and the draw are those of [alpha]. *)
Definition child_ready : World :=
  {| fs := ∅; processes := []; deliverable := fun _ => true;
     sigterm := []; console := []; exitCode := None; clock := 5000;
     draws := ["alpha"; "beta"];
     os_child := {| child_pid := Some 100; child_cmd := "node ganache";
                    child_events := [Message (JStr "hello"); Message (JStr "ready")] |};
     forked := [] |}.

End Demo.

(** ** Vocabulary of the statements *)

(** The keys [createFlatChildArgs] treats apart. *)
Definition special (key : string) : bool :=
  String.eqb key "flavor" || String.eqb key "action".

(** [bound_at o path k v]: walking from [o] down the keys of [path], each the
    key of a nested object and none of them special, one reaches an object
    that binds the key [k], not special either, to [v]. *)
Inductive bound_at : JSValue -> list string -> string -> JSValue -> Prop :=
| bound_here props k v :
    In (k, v) props -> special k = false ->
    bound_at (JObj props) [] k v
| bound_under props k' o path k v :
    In (k', o) props -> special k' = false ->
    bound_at o path k v ->
    bound_at (JObj props) (k' :: path) k v.

(** [flavor_at o v]: the walk from [o] meets a key [flavor] bound to [v]. *)
Inductive flavor_at : JSValue -> JSValue -> Prop :=
| flavor_here props v :
    In ("flavor", v) props -> flavor_at (JObj props) v
| flavor_under props k' o v :
    In (k', o) props -> special k' = false ->
    flavor_at o v ->
    flavor_at (JObj props) v.

(** The dotted path of the enclosing objects: [a.b.] under [a] then [b]. *)
Fixpoint dotted_prefix (path : list string) : string :=
  match path with
  | [] => ""
  | k :: rest => k +:+ "." +:+ dotted_prefix rest
  end.

(** The token [--{prefix}{k}={value}]. *)
Definition flag_token (path : list string) (k : string) (v : JSValue) : JSValue :=
  JStr ("--" +:+ dotted_prefix path +:+ k +:+ "=" +:+ template v).

(** The object without its [action] keys, at every depth the walk reaches
    (the value of a [flavor] key is passed on as it is). *)
Fixpoint without_action (v : JSValue) : JSValue :=
  match v with
  | JObj props =>
      JObj
        ((fix each (ps : list (string * JSValue)) : list (string * JSValue) :=
            match ps with
            | [] => []
            | (key, value) :: rest =>
                if String.eqb key "action" then each rest
                else if String.eqb key "flavor" then (key, value) :: each rest
                else (key, without_action value) :: each rest
            end) props)
  | _ => v
  end.

(** The loop over the properties of an object, on its own. *)
Definition flattenProps (namespace : option string)
    : list (string * JSValue) -> list JSValue -> list JSValue :=
  let prefix := prefix_of namespace in
  fix each (ps : list (string * JSValue)) (flattenedArgs : list JSValue)
    : list JSValue :=
    match ps with
    | [] => flattenedArgs
    | (key, value) :: rest =>
        if String.eqb key "flavor" then
          each rest (value :: flattenedArgs)
        else if negb (String.eqb key "action") then
          if typeof_object value then
            each rest (flatten (Some (prefix +:+ key)) value flattenedArgs)
          else
            each rest
              (flattenedArgs ++
               [JStr ("--" +:+ prefix +:+ key +:+ "=" +:+ template value)])
        else each rest flattenedArgs
    end.


(** The prefix the walk has built when it stands under [path]. *)
Fixpoint namespace_under (ns : option string) (path : list string) : option string :=
  match path with
  | [] => ns
  | k :: rest => namespace_under (Some (prefix_of ns +:+ k)) rest
  end.


(** The order the list is returned in, and the comparator that is passed to
    [sort]. *)
Definition newer_first (a b : DetachedInstance) : Prop :=
  startTime b <= startTime a.

Definition by_startTime (a b : DetachedInstance) : Z :=
  startTime b - startTime a.

(** What the loop of [getDetachedInstances] finds for a file: no process has
    its pid; a process has it under another command line; the record is
    live; the file cannot be read as a record while the process [n] holds
    its pid. *)
Inductive Verdict : Type :=
| Gone
| Reused
| Live (instance : DetachedInstance)
| Corrupt (n : Z).

Definition corruption_warning (pid : number) : string :=
  "Instance data corrupted. Process has been killed (PID "
  +:+ number_toString pid +:+ ")".

(** The worlds a turn of the loop leaves. *)
Definition evict (pid : number) (w : World) : World :=
  set_fs (delete (number_toString pid)) w.

Definition warned (pid : number) (w : World) : World :=
  set_console (fun l => l ++ [corruption_warning pid]) w.

Definition signalled (n : Z) (w : World) : World :=
  set_sigterm (fun l => l ++ [n]) w.

(** A file name is canonical when it is the decimal numeral of the pid it
    is read as. *)
Definition canonical (filename : string) : Prop :=
  number_toString (parseInt filename) = filename.

(** What a call leaves alone when it only removes files, signals and logs. *)
Definition only_removes (w w' : World) : Prop :=
  fs w' ⊆ fs w /\ processes w' = processes w /\ deliverable w' = deliverable w
  /\ exitCode w' = exitCode w /\ clock w' = clock w /\ draws w' = draws w
  /\ os_child w' = os_child w /\ forked w' = forked w.

(** The first event that settles the promise of the handshake. *)
Fixpoint decisive (events : list ChildEvent) : option ChildEvent :=
  match events with
  | [] => None
  | Message m :: rest =>
      if is_ready_message m then Some (Message m) else decisive rest
  | e :: _ => Some e
  end.

Section RegistryVocabulary.
Context {json : JSON}.

Definition verdict (processes : list Ps.t) (filename : string) (w : World)
    : Verdict :=
  match List.find (fun p => number_eqb (Num (Ps.pid p)) (parseInt filename))
                  processes with
  | None => Gone
  | Some p =>
      match fs w !! filename with
      | Some content =>
          match JSON_parse content with
          | Some instance =>
              if negb (String.eqb (Ps.cmd p) (cmd instance)) then Reused
              else Live instance
          | None => Corrupt (Ps.pid p)
          end
      | None => Corrupt (Ps.pid p)
      end
  end.

(** The invariant of the registry: a file is named by the decimal pid, and
    the record it holds carries that pid. *)
Definition registry_wf (w : World) : Prop :=
  forall filename content,
    fs w !! filename = Some content ->
    canonical filename
    /\ forall r, JSON_parse content = Some r -> parseInt filename = Num (pid r).

(** The invariant, as a check that runs. *)
Definition registry_wf_check (w : World) : bool :=
  forallb
    (fun entry : string * string =>
       String.eqb (number_toString (parseInt (fst entry))) (fst entry)
       && match JSON_parse (snd entry) with
          | Some r => number_eqb (Num (pid r)) (parseInt (fst entry))
          | None => true
          end)
    (map_to_list (fs w)).
End RegistryVocabulary.

(** ** The uptime column of the instance list ([cli.ts]) *)

(** The object [time] of [formatDuration], as its entries in the order
    [Object.entries] gives them. The duration is a whole number of
    milliseconds (the difference of two [Date.now()]) below 2^53 in size,
    where the doubles of the code are exact and [Math.floor(ms / k)] is the
    integer quotient; [%] is the remainder of the truncated division. Larger
    durations are out of the range of the model. *)
Definition duration_time (ms : Z) : list (string * Z) :=
  [("day", ms / 86400000);
   ("hour", Z.rem (ms / 3600000) 24);
   ("minute", Z.rem (ms / 60000) 60);
   ("second", Z.rem (ms / 1000) 60)].

(** [formatDuration(ms)] *)
Definition formatDuration (ms : Z) : string :=
  let ms := Z.abs ms in
  let time := duration_time ms in
  String.concat ", "
    (map (fun entry : string * Z =>
            let '(key, val) := entry in
            pretty val +:+ " " +:+ key +:+ (if negb (val =? 1) then "s" else ""))
         (List.filter (fun val : string * Z => negb (snd val =? 0)) time)).

(** ** More vocabulary *)

(** The values of the [flavor] keys the walk of [createFlatChildArgs] meets,
    in the order it meets them. *)
Fixpoint flavorsOf (v : JSValue) : list JSValue :=
  match v with
  | JObj props =>
      (fix each (ps : list (string * JSValue)) : list JSValue :=
         match ps with
         | [] => []
         | (key, value) :: rest =>
             if String.eqb key "flavor" then value :: each rest
             else if negb (String.eqb key "action") then
               if typeof_object value then flavorsOf value ++ each rest
               else each rest
             else each rest
         end) props
  | _ => []
  end.

(** The flag tokens of the walk, in the order it pushes them. *)
Fixpoint flagsOf (namespace : option string) (v : JSValue) : list JSValue :=
  match v with
  | JObj props =>
      let prefix := prefix_of namespace in
      (fix each (ps : list (string * JSValue)) : list JSValue :=
         match ps with
         | [] => []
         | (key, value) :: rest =>
             if String.eqb key "flavor" then each rest
             else if negb (String.eqb key "action") then
               if typeof_object value then
                 flagsOf (Some (prefix +:+ key)) value ++ each rest
               else
                 JStr ("--" +:+ prefix +:+ key +:+ "=" +:+ template value)
                 :: each rest
             else each rest
         end) props
  | _ => []
  end.

(** The loops of [flavorsOf] and [flagsOf] over the properties of an
    object, on their own. *)
Definition flavorsProps : list (string * JSValue) -> list JSValue :=
  fix each (ps : list (string * JSValue)) : list JSValue :=
    match ps with
    | [] => []
    | (key, value) :: rest =>
        if String.eqb key "flavor" then value :: each rest
        else if negb (String.eqb key "action") then
          if typeof_object value then flavorsOf value ++ each rest
          else each rest
        else each rest
    end.

Definition flagsProps (namespace : option string)
    : list (string * JSValue) -> list JSValue :=
  let prefix := prefix_of namespace in
  fix each (ps : list (string * JSValue)) : list JSValue :=
    match ps with
    | [] => []
    | (key, value) :: rest =>
        if String.eqb key "flavor" then each rest
        else if negb (String.eqb key "action") then
          if typeof_object value then
            flagsOf (Some (prefix +:+ key)) value ++ each rest
          else
            JStr ("--" +:+ prefix +:+ key +:+ "=" +:+ template value)
            :: each rest
        else each rest
    end.

(** A token that is a flag: a string that starts with two dashes. *)
Definition is_flag (t : JSValue) : bool :=
  match t with
  | JStr (String "-" (String "-" _)) => true
  | _ => false
  end.

(** [reads o key v]: the property read [o[key]] returns [v], in any world. *)
Definition reads (o : JSValue) (key : string) (v : JSValue) : Prop :=
  forall w, get_prop o key w = (w, Returned v).

Section MoreRegistryVocabulary.
Context {json : JSON}.

(** The live records of the files, in the order of the files. *)
Definition live_records (processes : list Ps.t) (files : list string)
    (w : World) : list DetachedInstance :=
  flat_map (fun f => match verdict processes f w with
                     | Live i => [i]
                     | _ => []
                     end) files.
End MoreRegistryVocabulary.

(** * Properties *)

(** ** The argument flattener *)

Lemma string_app_assoc (a b c : string) : (a +:+ b) +:+ c = a +:+ (b +:+ c).
Proof.
  induction a as [|x a IH]; [reflexivity|].
  change (String x ((a +:+ b) +:+ c) = String x (a +:+ (b +:+ c))).
  now rewrite IH.
Qed.

Lemma string_app_nil_r (a : string) : a +:+ "" = a.
Proof.
  induction a as [|x a IH]; [reflexivity|].
  change (String x (a +:+ "") = String x a). now rewrite IH.
Qed.

(** Induction on a value whose hypothesis on an object covers each of its
    property values. *)
Lemma JSValue_nested_ind (P : JSValue -> Prop) :
  P JUndefined -> P JNull -> (forall b, P (JBool b)) -> (forall n, P (JNum n)) ->
  (forall s, P (JStr s)) ->
  (forall props, Forall (fun kv => P (snd kv)) props -> P (JObj props)) ->
  forall v, P v.
Proof.
  intros Hu Hn Hb Hz Hs Ho.
  fix IH 1. intros v. destruct v as [| |b|n|s|props].
  - exact Hu.
  - exact Hn.
  - apply Hb.
  - apply Hz.
  - apply Hs.
  - apply Ho. induction props as [|kv props IHp]; constructor.
    + apply IH.
    + exact IHp.
Qed.

Lemma flatten_object ns props acc :
  flatten ns (JObj props) acc = flattenProps ns props acc.
Proof. reflexivity. Qed.

Lemma flattenProps_cons ns key value rest acc :
  flattenProps ns ((key, value) :: rest) acc =
  if String.eqb key "flavor" then flattenProps ns rest (value :: acc)
  else if negb (String.eqb key "action") then
    if typeof_object value then
      flattenProps ns rest (flatten (Some (prefix_of ns +:+ key)) value acc)
    else
      flattenProps ns rest
        (acc ++ [JStr ("--" +:+ prefix_of ns +:+ key +:+ "=" +:+ template value)])
  else flattenProps ns rest acc.
Proof. reflexivity. Qed.

(** Nothing is ever taken out of the array. *)
Lemma flatten_keeps v : forall ns acc t, In t acc -> In t (flatten ns v acc).
Proof.
  induction v as [| | | | |props IH] using JSValue_nested_ind;
    intros ns acc t Ht; try exact Ht.
  rewrite flatten_object. revert acc Ht.
  induction props as [|[key value] rest IHrest]; intros acc Ht; [exact Ht|].
  inversion IH as [|? ? Hv Hrest]; subst. simpl in Hv.
  rewrite flattenProps_cons.
  destruct (String.eqb key "flavor").
  - apply IHrest; [assumption | now right].
  - destruct (negb (String.eqb key "action")); [|now apply IHrest].
    destruct (typeof_object value).
    + apply IHrest; [assumption | now apply Hv].
    + apply IHrest; [assumption | apply in_or_app; now left].
Qed.

Lemma flattenProps_keeps ns props acc t :
  In t acc -> In t (flattenProps ns props acc).
Proof. rewrite <- flatten_object. apply flatten_keeps. Qed.

Lemma special_false key :
  special key = false ->
  String.eqb key "flavor" = false /\ negb (String.eqb key "action") = true.
Proof.
  unfold special. intros Hk. apply orb_false_elim in Hk as [-> ->]. now split.
Qed.

Lemma prefix_under ns path :
  prefix_of (namespace_under ns path) = prefix_of ns +:+ dotted_prefix path.
Proof.
  revert ns. induction path as [|k rest IH]; intros ns.
  - cbn [namespace_under dotted_prefix]. symmetry. apply string_app_nil_r.
  - cbn [namespace_under dotted_prefix]. rewrite IH. cbn [prefix_of].
    now rewrite !string_app_assoc.
Qed.

Lemma flatten_bound o path k v :
  bound_at o path k v -> typeof_object v = false ->
  forall ns acc,
    In (JStr ("--" +:+ prefix_of (namespace_under ns path) +:+ k +:+ "="
              +:+ template v))
       (flatten ns o acc).
Proof.
  intros Hb Hv. induction Hb as [props k v Hin Hk | props k' o path k v Hin Hk Hb IH];
    intros ns acc; rewrite flatten_object; simpl namespace_under.
  - revert acc. induction props as [|[key value] rest IHrest]; intros acc;
      [contradiction|].
    rewrite flattenProps_cons. destruct Hin as [Heq | Hin].
    + inversion Heq; subst key value.
      destruct (special_false _ Hk) as [-> ->]. rewrite Hv.
      apply flattenProps_keeps, in_or_app. right. now left.
    + destruct (String.eqb key "flavor"); [now apply IHrest|].
      destruct (negb (String.eqb key "action")); [|now apply IHrest].
      destruct (typeof_object value); now apply IHrest.
  - revert acc. induction props as [|[key value] rest IHrest]; intros acc;
      [contradiction|].
    rewrite flattenProps_cons. destruct Hin as [Heq | Hin].
    + inversion Heq; subst key value.
      destruct (special_false _ Hk) as [-> ->].
      assert (Ho : typeof_object o = true) by (inversion Hb; reflexivity).
      rewrite Ho. apply flattenProps_keeps, IH. exact Hv.
    + destruct (String.eqb key "flavor"); [now apply IHrest|].
      destruct (negb (String.eqb key "action")); [|now apply IHrest].
      destruct (typeof_object value); now apply IHrest.
Qed.

(** Where the elements of the array come from: what was in it, the value
    of a [flavor] key, or the token of a key bound to a value that is not of
    type object. *)
Lemma flatten_origin o :
  forall ns acc t,
    In t (flatten ns o acc) ->
    In t acc
    \/ flavor_at o t
    \/ exists path k v,
         bound_at o path k v /\ typeof_object v = false
         /\ t = JStr ("--" +:+ prefix_of (namespace_under ns path) +:+ k +:+ "="
                      +:+ template v).
Proof.
  induction o as [| | | | |props IH] using JSValue_nested_ind;
    intros ns acc t Ht; try (left; exact Ht).
  rewrite flatten_object in Ht.
  assert (Hgen : forall done acc,
             In t (flattenProps ns props acc) ->
             In t acc
             \/ flavor_at (JObj (done ++ props)) t
             \/ exists path k v,
                  bound_at (JObj (done ++ props)) path k v
                  /\ typeof_object v = false
                  /\ t = JStr ("--" +:+ prefix_of (namespace_under ns path)
                               +:+ k +:+ "=" +:+ template v)).
  { clear Ht acc. induction props as [|[key value] rest IHrest];
      intros done acc Ht; [now left|].
    inversion IH as [|? ? Hv Hrest]; subst. simpl in Hv.
    specialize (IHrest Hrest (done ++ [(key, value)])).
    rewrite <- app_assoc in IHrest. simpl in IHrest.
    assert (Hhere : In (key, value) (done ++ (key, value) :: rest))
      by (apply in_or_app; right; now left).
    rewrite flattenProps_cons in Ht.
    destruct (String.eqb key "flavor") eqn:Hf.
    - apply String.eqb_eq in Hf. subst key.
      destruct (IHrest _ Ht) as [[<- | Hin] | Hrest']; auto.
      right. left. now apply flavor_here.
    - destruct (String.eqb key "action") eqn:Ha; simpl negb in Ht; cbv iota in Ht;
        [now apply IHrest|].
      assert (Hk : special key = false) by (unfold special; now rewrite Hf, Ha).
      destruct (typeof_object value) eqn:Hto.
      + destruct (IHrest _ Ht) as [Hin | Hrest']; [|now right].
        destruct (Hv _ _ _ Hin) as [Hacc | [Hfl | (path & k & v & Hb & Hs & ->)]].
        * now left.
        * right. left. eapply flavor_under; eassumption.
        * right. right. exists (key :: path), k, v.
          split; [eapply bound_under; eassumption | now split].
      + destruct (IHrest _ Ht) as [Hin | Hrest']; [|now right].
        apply in_app_or in Hin as [Hin | [<- | []]]; [now left|].
        right. right. exists [], key, value.
        split; [now apply bound_here | now split]. }
  exact (Hgen [] acc Ht).
Qed.

Lemma flatten_without_action v :
  forall ns acc, flatten ns (without_action v) acc = flatten ns v acc.
Proof.
  induction v as [| | | | |props IH] using JSValue_nested_ind;
    intros ns acc; try reflexivity.
  simpl without_action. rewrite !flatten_object. revert acc.
  induction props as [|[key value] rest IHrest]; intros acc; [reflexivity|].
  inversion IH as [|? ? Hv Hrest]; subst. simpl in Hv.
  rewrite (flattenProps_cons ns key value rest).
  destruct (String.eqb key "action") eqn:Ha.
  - apply String.eqb_eq in Ha. subst key. simpl. now apply IHrest.
  - destruct (String.eqb key "flavor") eqn:Hf.
    + rewrite flattenProps_cons, Hf. now apply IHrest.
    + rewrite flattenProps_cons, Hf, Ha. simpl negb. cbv iota.
      assert (Ht : typeof_object (without_action value) = typeof_object value)
        by (destruct value; reflexivity).
      rewrite Ht. destruct (typeof_object value) eqn:Hto.
      * rewrite Hv. now apply IHrest.
      * assert (Hw : without_action value = value) by (destruct value; try reflexivity; discriminate).
        rewrite Hw. now apply IHrest.
Qed.

(** C4. Flattening [{flavor: "x", a: {b: 1}}] gives exactly ["x", "--a.b=1"]:
    the flavor comes first as a bare token, the nested key is dotted, and a
    key named [action] leaves no trace, here and in every object, at any
    depth of the walk. *)
Theorem flatten_flavor_first_action_dropped :
  createFlatChildArgs
    (JObj [("flavor", JStr "x"); ("a", JObj [("b", JNum 1)])])
  = [JStr "x"; JStr "--a.b=1"]
  /\ createFlatChildArgs
       (JObj [("action", JStr "start"); ("a", JObj [("b", JNum 1); ("action", JNum 2)]);
              ("flavor", JStr "x")])
     = [JStr "x"; JStr "--a.b=1"]
  /\ forall args, createFlatChildArgs (without_action args) = createFlatChildArgs args.
Proof.
  split; [vm_compute; reflexivity|].
  split; [vm_compute; reflexivity|].
  intros args. apply flatten_without_action.
Qed.

(** C9, as the code has it. A key that is neither [flavor] nor [action], that
    lies under no such key, and that is bound to a value whose [typeof] is
    not ["object"] (a string, a number, a boolean, [undefined]) contributes
    the token [--{prefix}{k}={value}], the prefix being the dotted path of
    the enclosing objects. *)
Theorem scalar_key_contributes_flag o path k v :
  bound_at o path k v -> typeof_object v = false ->
  In (flag_token path k v) (createFlatChildArgs o).
Proof.
  intros Hb Hv. unfold flag_token, createFlatChildArgs.
  pose proof (flatten_bound o path k v Hb Hv None []) as Hin.
  rewrite prefix_under in Hin. exact Hin.
Qed.

Lemma scalar_key_contributes_flag_witness :
  In (JStr "--server.port=8545")
     (createFlatChildArgs
        (JObj [("flavor", JStr "ethereum");
               ("server", JObj [("host", JStr "127.0.0.1"); ("port", JNum 8545)])])).
Proof.
  apply (scalar_key_contributes_flag
           (JObj [("flavor", JStr "ethereum");
                  ("server", JObj [("host", JStr "127.0.0.1"); ("port", JNum 8545)])])
           ["server"] "port" (JNum 8545)).
  - apply bound_under with (o := JObj [("host", JStr "127.0.0.1"); ("port", JNum 8545)]).
    + simpl. right. left. reflexivity.
    + reflexivity.
    + apply bound_here; [simpl; right; left; reflexivity | reflexivity].
  - reflexivity.
Defined.

(** C9, as the claim has it, fails at [null]: [null] is a scalar, the key [a]
    is bound to it, and the flattened arguments are empty. *)
Lemma null_scalar_contributes_nothing :
  primitive JNull = true
  /\ bound_at (JObj [("a", JNull)]) [] "a" JNull
  /\ ~ In (flag_token [] "a" JNull) (createFlatChildArgs (JObj [("a", JNull)])).
Proof.
  split; [reflexivity|]. split.
  - apply bound_here; [simpl; left; reflexivity | reflexivity].
  - vm_compute. intros [].
Qed.

(** A key under an [action] key is bound to a scalar and is not special
    itself; the whole subtree is dropped with the [action] key. *)
Lemma key_under_action_contributes_nothing :
  createFlatChildArgs (JObj [("action", JObj [("b", JNum 1)])]) = [].
Proof. reflexivity. Qed.

(** ** The name loop *)

Lemma indexOf_lower l x : -1 <= indexOf l x.
Proof.
  induction l as [|y l IH]; simpl; [lia|].
  destruct (String.eqb y x); [lia|].
  destruct (indexOf l x =? -1); lia.
Qed.

Lemma indexOf_absent l x : indexOf l x = -1 <-> ~ In x l.
Proof.
  induction l as [|y l IH]; simpl.
  - split; [intros _ [] | reflexivity].
  - destruct (String.eqb y x) eqn:Hyx.
    + apply String.eqb_eq in Hyx. split; [lia | intros Hn; exfalso; auto].
    + apply String.eqb_neq in Hyx.
      destruct (indexOf l x =? -1) eqn:Hi.
      * apply Z.eqb_eq in Hi. split; [|reflexivity].
        intros _ [Heq | Hin]; [auto | now apply IH].
      * apply Z.eqb_neq in Hi. pose proof (indexOf_lower l x).
        split; [lia|]. intros Hn. exfalso. apply Hi, IH. auto.
Qed.

Lemma nameLoop_finds (tape instanceNames : list string) :
  (exists n, In n tape /\ ~ In n instanceNames) ->
  exists instanceName rest,
    nameLoop tape instanceNames = Some (instanceName, rest)
    /\ ~ In instanceName instanceNames.
Proof.
  intros (n & Hd & Hn).
  induction tape as [|d tape IH]; [destruct Hd|].
  simpl. destruct (indexOf instanceNames d =? -1) eqn:Hi; simpl.
  - apply Z.eqb_eq, indexOf_absent in Hi. eauto.
  - destruct Hd as [-> | Hd]; [|now apply IH].
    apply Z.eqb_neq in Hi. exfalso. now apply Hi, indexOf_absent.
Qed.

(** C10. When the names the generator gives hold one that is not in use, the
    loop of the spawner ends and returns a name that is not in use; the
    spawner takes that name and leaves the later draws. *)
Theorem nameLoop_returns_unused (tape instanceNames : list string) :
  (exists n, In n tape /\ ~ In n instanceNames) ->
  exists instanceName rest,
    nameLoop tape instanceNames = Some (instanceName, rest)
    /\ ~ In instanceName instanceNames
    /\ forall w, draws w = tape ->
         chooseInstanceName instanceNames w
         = (set_draws rest w, Returned instanceName).
Proof.
  intros Hfresh.
  destruct (nameLoop_finds tape instanceNames Hfresh)
    as (name & rest & Hloop & Hunused).
  exists name, rest. repeat split; try assumption.
  intros w Hw. unfold chooseInstanceName. now rewrite Hw, Hloop.
Qed.

Lemma nameLoop_returns_unused_witness :
  exists instanceName rest,
    nameLoop ["salty_cake"; "salty_cake"; "sweet_pie"; "sour_tart"] ["salty_cake"]
    = Some (instanceName, rest)
    /\ ~ In instanceName ["salty_cake"]
    /\ forall w, draws w = ["salty_cake"; "salty_cake"; "sweet_pie"; "sour_tart"] ->
         chooseInstanceName ["salty_cake"] w
         = (set_draws rest w, Returned instanceName).
Proof.
  apply (nameLoop_returns_unused
           ["salty_cake"; "salty_cake"; "sweet_pie"; "sour_tart"] ["salty_cake"]).
  exists "sweet_pie". split.
  - simpl. right. right. left. reflexivity.
  - simpl. intros [Heq | []]. discriminate Heq.
Defined.

(** ** The order of the instances *)

Lemma sort_insert_HdRel x y l :
  newer_first y x -> HdRel newer_first y l ->
  HdRel newer_first y (sort_insert by_startTime x l).
Proof.
  intros Hyx Hl. destruct l as [|z l]; simpl.
  - now constructor.
  - destruct (by_startTime x z <=? 0); constructor; [assumption|].
    now inversion Hl.
Qed.

Lemma sort_insert_Sorted x l :
  Sorted newer_first l -> Sorted newer_first (sort_insert by_startTime x l).
Proof.
  induction 1 as [|y l Hs IH Hhd]; simpl.
  - repeat constructor.
  - destruct (by_startTime x y <=? 0) eqn:Hc.
    + apply Z.leb_le in Hc. unfold by_startTime in Hc.
      constructor; [now constructor|]. constructor. unfold newer_first. lia.
    + apply Z.leb_gt in Hc. unfold by_startTime in Hc.
      constructor; [assumption|].
      apply sort_insert_HdRel; [|assumption]. unfold newer_first. lia.
Qed.

Lemma sort_Sorted l : Sorted newer_first (sort by_startTime l).
Proof.
  induction l as [|x l IH]; simpl; [constructor | now apply sort_insert_Sorted].
Qed.

Lemma Sorted_adjacent (l : list DetachedInstance) :
  Sorted newer_first l ->
  forall (i : nat) a b, l !! i = Some a -> l !! S i = Some b -> newer_first a b.
Proof.
  induction 1 as [|x l Hs IH Hhd]; intros i a b Ha Hb; [discriminate|].
  destruct i as [|i]; simpl in Ha, Hb.
  - inversion Ha; subst x. destruct l as [|y l]; [discriminate|].
    simpl in Hb. inversion Hb; subst y. now inversion Hhd.
  - eapply IH; eassumption.
Qed.

(** ** One turn of the reconciliation loop *)

Lemma set_fs_id (f : gmap string string -> gmap string string) (w : World) :
  f (fs w) = fs w -> set_fs f w = w.
Proof. destruct w; unfold set_fs; simpl; intros ->; reflexivity. Qed.

Lemma removeDetachedInstanceFile_spec pid w :
  removeDetachedInstanceFile pid w
  = (evict pid w,
     Returned (bool_decide (is_Some (fs w !! number_toString pid)))).
Proof.
  unfold removeDetachedInstanceFile, bind, existsSync, rmSync, ret, evict.
  destruct (fs w !! number_toString pid) as [c|] eqn:Hc.
  - rewrite bool_decide_eq_true_2 by eauto. cbn beta iota. rewrite Hc. reflexivity.
  - rewrite bool_decide_eq_false_2 by (intros [? ?]; discriminate).
    rewrite set_fs_id; [reflexivity | now apply delete_id].
Qed.

Lemma number_eqb_eq n x : number_eqb (Num n) x = true -> x = Num n.
Proof.
  destruct x as [|m]; simpl; [discriminate|].
  intros Hm. apply Z.eqb_eq in Hm. now subst.
Qed.

Section RegistryProofs.
Context {json : JSON}.

Lemma verdict_pid procs g w :
  match verdict procs g w with
  | Gone => True
  | Corrupt n => parseInt g = Num n
  | _ => exists n, parseInt g = Num n
  end.
Proof.
  unfold verdict.
  destruct (List.find _ procs) as [p|] eqn:Hf; [|exact I].
  apply find_some in Hf as [_ Hp]. apply number_eqb_eq in Hp.
  destruct (fs w !! g) as [c|]; [|assumption].
  destruct (JSON_parse c) as [i|]; [|assumption].
  destruct (negb _); eauto.
Qed.

(** The turn of the loop, read off the verdict on its file. *)
Lemma reconcileFile_spec procs g insts w :
  reconcileFile procs g insts w =
  match verdict procs g w with
  | Gone | Reused => (evict (parseInt g) w, Returned insts)
  | Live i => (w, Returned (insts ++ [i]))
  | Corrupt n =>
      if deliverable w n
      then (evict (Num n) (signalled n (warned (Num n) w)), Returned insts)
      else (signalled n (warned (Num n) w), Thrown (SystemError "ESRCH"))
  end.
Proof.
  pose proof (verdict_pid procs g w) as Hpid.
  unfold reconcileFile, verdict in *.
  destruct (List.find _ procs) as [p|] eqn:Hf.
  - unfold bind at 1, try_catch, bind at 1, readFileSync.
    destruct (fs w !! g) as [c|] eqn:Hc.
    + destruct (JSON_parse c) as [i|] eqn:Hi.
      * destruct (negb _); unfold ret.
        -- unfold bind. rewrite removeDetachedInstanceFile_spec. reflexivity.
        -- reflexivity.
      * unfold throw. rewrite Hpid.
        unfold bind, console_error, process_kill, ret.
        fold (corruption_warning (Num (Ps.pid p))).
        change (set_console _ w) with (warned (Num (Ps.pid p)) w).
        change (deliverable (warned (Num (Ps.pid p)) w)) with (deliverable w).
        destruct (deliverable w (Ps.pid p)).
        -- rewrite removeDetachedInstanceFile_spec. reflexivity.
        -- reflexivity.
    + rewrite Hpid.
      unfold bind, console_error, process_kill, ret.
      fold (corruption_warning (Num (Ps.pid p))).
      change (set_console _ w) with (warned (Num (Ps.pid p)) w).
      change (deliverable (warned (Num (Ps.pid p)) w)) with (deliverable w).
      destruct (deliverable w (Ps.pid p)).
      -- rewrite removeDetachedInstanceFile_spec. reflexivity.
      -- reflexivity.
  - unfold bind, ret. rewrite removeDetachedInstanceFile_spec. reflexivity.
Qed.

Lemma only_removes_refl w : only_removes w w.
Proof. unfold only_removes. repeat split; reflexivity. Qed.

Lemma only_removes_trans w1 w2 w3 :
  only_removes w1 w2 -> only_removes w2 w3 -> only_removes w1 w3.
Proof.
  unfold only_removes.
  intros (Hf & Hp & Hd & He & Hc & Hn & Ho & Hk)
         (Hf' & Hp' & Hd' & He' & Hc' & Hn' & Ho' & Hk').
  repeat split; try congruence. now transitivity (fs w2).
Qed.

Lemma only_removes_evict pid w : only_removes w (evict pid w).
Proof.
  unfold only_removes, evict. repeat split; try reflexivity.
  apply delete_subseteq.
Qed.

Lemma only_removes_signalled n pid w :
  only_removes w (signalled n (warned pid w)).
Proof. unfold only_removes. repeat split; reflexivity. Qed.

(** What a turn leaves alone: it removes at most the file named by the pid
    it read, and only adds to the signals and to the console. *)
Lemma reconcileFile_frame procs g insts w w1 out1 :
  reconcileFile procs g insts w = (w1, out1) ->
  only_removes w w1
  /\ (forall name, name <> number_toString (parseInt g) ->
        fs w1 !! name = fs w !! name)
  /\ (exists s, sigterm w1 = sigterm w ++ s)
  /\ (exists c, console w1 = console w ++ c).
Proof.
  rewrite reconcileFile_spec. pose proof (verdict_pid procs g w) as Hpid.
  destruct (verdict procs g w) as [| |i|n].
  - intros [= <- <-]. split; [apply only_removes_evict|].
    split; [intros name Hne; apply lookup_delete_ne; congruence|].
    split; exists []; simpl; now rewrite app_nil_r.
  - intros [= <- <-]. split; [apply only_removes_evict|].
    split; [intros name Hne; apply lookup_delete_ne; congruence|].
    split; exists []; simpl; now rewrite app_nil_r.
  - intros [= <- <-]. split; [apply only_removes_refl|].
    split; [reflexivity|]. split; exists []; now rewrite app_nil_r.
  - rewrite Hpid. destruct (deliverable w n); intros [= <- <-].
    + split.
      { eapply only_removes_trans;
          [apply (only_removes_signalled n (Num n)) | apply only_removes_evict]. }
      split; [intros name Hne; apply lookup_delete_ne; congruence|].
      split; eexists; reflexivity.
    + split; [apply only_removes_signalled|].
      split; [reflexivity|]. split; eexists; reflexivity.
Qed.

Lemma reconcileFiles_cons procs g rest insts w :
  reconcileFiles procs (g :: rest) insts w =
  match reconcileFile procs g insts w with
  | (w1, Returned insts1) => reconcileFiles procs rest insts1 w1
  | (w1, Thrown e) => (w1, Thrown e)
  | (w1, Pending) => (w1, Pending)
  end.
Proof. reflexivity. Qed.

(** The loop only removes files, and only adds to the signals and to the
    console; what it has collected stays collected. *)
Lemma reconcileFiles_frame procs files :
  forall insts w w' out,
    reconcileFiles procs files insts w = (w', out) ->
    only_removes w w'
    /\ (forall name,
          (forall f, In f files -> name <> number_toString (parseInt f)) ->
          fs w' !! name = fs w !! name)
    /\ (exists s, sigterm w' = sigterm w ++ s)
    /\ (exists c, console w' = console w ++ c)
    /\ (forall insts', out = Returned insts' ->
          forall x, In x insts -> In x insts').
Proof.
  induction files as [|g rest IH]; intros insts w w' out Hrun.
  - injection Hrun as <- <-. split; [apply only_removes_refl|].
    split; [reflexivity|]. split; [exists []; now rewrite app_nil_r|].
    split; [exists []; now rewrite app_nil_r|].
    intros insts' [= <-] x Hx. exact Hx.
  - rewrite reconcileFiles_cons in Hrun.
    destruct (reconcileFile procs g insts w) as [w1 out1] eqn:Hstep.
    pose proof (reconcileFile_frame _ _ _ _ _ _ Hstep)
      as (Hr1 & Ho1 & [s1 Hs1] & [c1 Hc1]).
    destruct out1 as [insts1|e|].
    + destruct (IH _ _ _ _ Hrun) as (Hr & Ho & [s Hs] & [c Hc] & Hk).
      split; [eapply only_removes_trans; eassumption|].
      split.
      { intros name Hname. rewrite Ho by (intros f Hf; apply Hname; now right).
        apply Ho1, Hname. now left. }
      split; [exists (s1 ++ s); now rewrite Hs, Hs1, app_assoc|].
      split; [exists (c1 ++ c); now rewrite Hc, Hc1, app_assoc|].
      intros insts' Hout x Hx. apply (Hk insts' Hout).
      rewrite reconcileFile_spec in Hstep.
      destruct (verdict procs g w) as [| |i|n].
      * now injection Hstep as _ <-.
      * now injection Hstep as _ <-.
      * injection Hstep as _ <-. apply in_or_app. now left.
      * destruct (deliverable w n); [now injection Hstep as _ <- | discriminate].
    + injection Hrun as <- <-. split; [assumption|].
      split; [intros name Hname; apply Ho1, Hname; now left|].
      split; [eauto|]. split; [eauto|]. discriminate.
    + injection Hrun as <- <-. split; [assumption|].
      split; [intros name Hname; apply Ho1, Hname; now left|].
      split; [eauto|]. split; [eauto|]. discriminate.
Qed.

Lemma verdict_ext procs g w1 w2 :
  fs w1 !! g = fs w2 !! g -> verdict procs g w1 = verdict procs g w2.
Proof. unfold verdict. now intros ->. Qed.

Lemma canonical_other g f :
  canonical g -> f <> g -> f <> number_toString (parseInt g).
Proof. unfold canonical. intros -> Hne. exact Hne. Qed.

(** What a pass that returns has done with each file of the directory, by
    the verdict the file has in the world the pass started in. *)
Lemma reconcileFiles_each procs files :
  forall insts w w' insts',
    NoDup files -> Forall canonical files ->
    reconcileFiles procs files insts w = (w', Returned insts') ->
    forall f, In f files ->
      match verdict procs f w with
      | Live i => fs w' !! f = fs w !! f /\ In i insts'
      | Corrupt n =>
          fs w' !! f = None /\ deliverable w n = true
          /\ (exists s, sigterm w' = sigterm w ++ s /\ In n s)
          /\ (exists c, console w' = console w ++ c
                         /\ In (corruption_warning (Num n)) c)
      | _ => fs w' !! f = None
      end.
Proof.
  induction files as [|g rest IH]; intros insts w w' insts' Hnd Hcan Hrun f Hf;
    [destruct Hf|].
  apply NoDup_cons in Hnd as [Hg Hnd]. rewrite list_elem_of_In in Hg.
  inversion Hcan as [|? ? Hcg Hcrest]; subst.
  rewrite reconcileFiles_cons in Hrun.
  destruct (reconcileFile procs g insts w) as [w1 out1] eqn:Hstep.
  destruct out1 as [insts1|e|]; [|discriminate|discriminate].
  pose proof (reconcileFile_frame _ _ _ _ _ _ Hstep)
    as (Hr1 & Ho1 & [s1 Hs1] & [c1 Hc1]).
  pose proof (reconcileFiles_frame _ _ _ _ _ _ Hrun)
    as (Hr & Ho & [s Hs] & [c Hc] & Hk).
  destruct Hf as [<- | Hf].
  - rewrite reconcileFile_spec in Hstep.
    assert (Hgone : fs (evict (parseInt g) w) !! g = None).
    { unfold evict. simpl. rewrite Hcg. apply lookup_delete_eq. }
    destruct (verdict procs g w) as [| |i|n] eqn:Hv.
    + injection Hstep as <- <-.
      eapply lookup_weaken_None; [exact Hgone | apply Hr].
    + injection Hstep as <- <-.
      eapply lookup_weaken_None; [exact Hgone | apply Hr].
    + injection Hstep as <- <-. split.
      * apply Ho. intros f Hf. apply canonical_other.
        -- now apply (proj1 (List.Forall_forall canonical rest) Hcrest).
        -- intros ->. contradiction.
      * apply (Hk insts' eq_refl). apply in_or_app. right. now left.
    + pose proof (verdict_pid procs g w) as Hpid. rewrite Hv in Hpid.
      destruct (deliverable w n) eqn:Hdel; [|discriminate].
      injection Hstep as <- <-. split; [|split; [reflexivity|split]].
      * eapply lookup_weaken_None; [|apply Hr].
        change (delete (number_toString (Num n)) (fs w) !! g = None).
        rewrite <- Hpid, Hcg. apply lookup_delete_eq.
      * exists ([n] ++ s). split; [|now left].
        rewrite Hs. simpl. now rewrite <- app_assoc.
      * exists ([corruption_warning (Num n)] ++ c). split; [|now left].
        rewrite Hc. simpl. now rewrite <- app_assoc.
  - assert (Hne : f <> g) by (intros ->; contradiction).
    assert (Hsame : fs w1 !! f = fs w !! f).
    { apply Ho1. now apply canonical_other. }
    specialize (IH _ _ _ _ Hnd Hcrest Hrun f Hf).
    rewrite (verdict_ext procs f w1 w Hsame) in IH.
    destruct (verdict procs f w) as [| |i|n]; try assumption.
    + destruct IH as [Hfs Hin]. split; [congruence | assumption].
    + destruct IH as (Hfs & Hdel & (s' & Hs' & Hn) & (c' & Hc' & Hw)).
      split; [assumption|]. split; [destruct Hr1 as (_ & _ & <- & _); exact Hdel|].
      split.
      * exists (s1 ++ s'). split; [now rewrite Hs', Hs1, app_assoc|].
        apply in_or_app. now right.
      * exists (c1 ++ c'). split; [now rewrite Hc', Hc1, app_assoc|].
        apply in_or_app. now right.
Qed.

(** Every instance a pass collects is the live record of a file. *)
Lemma reconcileFiles_provenance procs files :
  forall insts w w' insts',
    NoDup files -> Forall canonical files ->
    reconcileFiles procs files insts w = (w', Returned insts') ->
    forall x, In x insts' ->
      In x insts \/ exists f, In f files /\ verdict procs f w = Live x.
Proof.
  induction files as [|g rest IH]; intros insts w w' insts' Hnd Hcan Hrun x Hx.
  - injection Hrun as <- <-. now left.
  - apply NoDup_cons in Hnd as [Hg Hnd]. rewrite list_elem_of_In in Hg.
    inversion Hcan as [|? ? Hcg Hcrest]; subst.
    rewrite reconcileFiles_cons in Hrun.
    destruct (reconcileFile procs g insts w) as [w1 out1] eqn:Hstep.
    destruct out1 as [insts1|e|]; [|discriminate|discriminate].
    pose proof (reconcileFile_frame _ _ _ _ _ _ Hstep) as (_ & Ho1 & _).
    destruct (IH _ _ _ _ Hnd Hcrest Hrun x Hx) as [Hin | (f & Hf & Hv)].
    + rewrite reconcileFile_spec in Hstep.
      destruct (verdict procs g w) as [| |i|n] eqn:Hv.
      * injection Hstep as _ <-. now left.
      * injection Hstep as _ <-. now left.
      * injection Hstep as _ <-. apply in_app_or in Hin as [Hin | [<- | []]].
        -- now left.
        -- right. exists g. split; [now left | assumption].
      * destruct (deliverable w n); [|discriminate].
        injection Hstep as _ <-. now left.
    + right. exists f. split; [now right|].
      rewrite <- Hv. symmetry. apply verdict_ext, Ho1, canonical_other;
        [assumption | intros ->; contradiction].
Qed.

(** Every signal a pass sends goes to the pid of a file it could not read
    as a record. *)
Lemma reconcileFiles_signals procs files :
  forall insts w w' out,
    NoDup files -> Forall canonical files ->
    reconcileFiles procs files insts w = (w', out) ->
    exists s, sigterm w' = sigterm w ++ s
              /\ forall n, In n s ->
                   exists f, In f files /\ verdict procs f w = Corrupt n.
Proof.
  induction files as [|g rest IH]; intros insts w w' out Hnd Hcan Hrun.
  - injection Hrun as <- <-. exists []. split; [now rewrite app_nil_r | intros n []].
  - apply NoDup_cons in Hnd as [Hg Hnd]. rewrite list_elem_of_In in Hg.
    inversion Hcan as [|? ? Hcg Hcrest]; subst.
    rewrite reconcileFiles_cons in Hrun.
    destruct (reconcileFile procs g insts w) as [w1 out1] eqn:Hstep.
    pose proof (reconcileFile_frame _ _ _ _ _ _ Hstep) as (_ & Ho1 & _).
    assert (Hfirst : exists s1, sigterm w1 = sigterm w ++ s1
              /\ forall n, In n s1 -> verdict procs g w = Corrupt n).
    { rewrite reconcileFile_spec in Hstep.
      destruct (verdict procs g w) as [| |i|n] eqn:Hv.
      - injection Hstep as <- _. exists []. split; [now rewrite app_nil_r | intros n []].
      - injection Hstep as <- _. exists []. split; [now rewrite app_nil_r | intros n []].
      - injection Hstep as <- _. exists []. split; [now rewrite app_nil_r | intros n []].
      - exists [n]. split.
        + destruct (deliverable w n); injection Hstep as <- _; reflexivity.
        + intros m [<- | []]. reflexivity. }
    destruct Hfirst as (s1 & Hs1 & Hn1).
    assert (Hrest : exists s', sigterm w' = sigterm w1 ++ s'
              /\ forall n, In n s' ->
                   exists f, In f rest /\ verdict procs f w = Corrupt n).
    { destruct out1 as [insts1|e|].
      - destruct (IH _ _ _ _ Hnd Hcrest Hrun) as (s' & Hs' & Hn').
        exists s'. split; [assumption|]. intros n Hn.
        destruct (Hn' n Hn) as (f & Hf & Hv). exists f. split; [assumption|].
        rewrite <- Hv. symmetry. apply verdict_ext, Ho1, canonical_other;
          [assumption | intros ->; contradiction].
      - injection Hrun as <- _. exists []. split; [now rewrite app_nil_r | intros n []].
      - injection Hrun as <- _. exists []. split; [now rewrite app_nil_r | intros n []]. }
    destruct Hrest as (s' & Hs' & Hn').
    exists (s1 ++ s'). split; [now rewrite Hs', Hs1, app_assoc|].
    intros n Hn. apply in_app_or in Hn as [Hn | Hn].
    + exists g. split; [now left | now apply Hn1].
    + destruct (Hn' n Hn) as (f & Hf & Hv). exists f. split; [now right | assumption].
Qed.

(** ** A whole pass *)

Lemma getDetachedInstances_spec w :
  getDetachedInstances w =
  match reconcileFiles (processes w) (map_to_list (fs w)).*1 [] w with
  | (w', Returned insts) => (w', Returned (sort by_startTime insts))
  | (w', Thrown e) => (w', Thrown e)
  | (w', Pending) => (w', Pending)
  end.
Proof.
  unfold getDetachedInstances, bind, readdirSync, psList, ret.
  destruct (reconcileFiles _ _ _ _) as [w' [insts|e|]]; reflexivity.
Qed.

Lemma readdir_In w f : In f (map_to_list (fs w)).*1 <-> is_Some (fs w !! f).
Proof.
  rewrite <- list_elem_of_In, list_elem_of_fmap. split.
  - intros ([g c] & -> & Hin). apply elem_of_map_to_list in Hin. eauto.
  - intros [c Hc]. exists (f, c). split; [reflexivity|].
    now apply elem_of_map_to_list.
Qed.

Lemma readdir_canonical w :
  registry_wf w -> Forall canonical (map_to_list (fs w)).*1.
Proof.
  intros Hwf. apply List.Forall_forall. intros f Hf.
  apply readdir_In in Hf as [c Hc]. now apply (Hwf f c).
Qed.

Lemma sort_insert_In {A} (compare : A -> A -> Z) x y l :
  In y (sort_insert compare x l) <-> y = x \/ In y l.
Proof.
  induction l as [|z l IH]; simpl.
  - intuition.
  - destruct (compare x z <=? 0); simpl; [intuition|].
    rewrite IH. intuition.
Qed.

Lemma sort_In {A} (compare : A -> A -> Z) y l :
  In y (sort compare l) <-> In y l.
Proof.
  induction l as [|x l IH]; simpl; [reflexivity|].
  rewrite sort_insert_In, IH. intuition.
Qed.

Lemma verdict_Live procs g w x :
  verdict procs g w = Live x ->
  exists c p,
    fs w !! g = Some c /\ JSON_parse c = Some x
    /\ List.find (fun p => number_eqb (Num (Ps.pid p)) (parseInt g)) procs
       = Some p
    /\ Ps.cmd p = cmd x.
Proof.
  unfold verdict. destruct (List.find _ procs) as [p|]; [|discriminate].
  destruct (fs w !! g) as [c|]; [|discriminate].
  destruct (JSON_parse c) as [i|] eqn:Hi; [|discriminate].
  destruct (String.eqb (Ps.cmd p) (cmd i)) eqn:Hcmd; [|discriminate].
  intros [= <-]. apply String.eqb_eq in Hcmd. eauto 6.
Qed.

(** Under the invariant two files that are read as the same pid are the
    same file. *)
Lemma wf_same_pid w f g :
  registry_wf w -> is_Some (fs w !! f) -> is_Some (fs w !! g) ->
  parseInt f = parseInt g -> f = g.
Proof.
  intros Hwf [c Hc] [d Hd] Heq.
  destruct (Hwf f c Hc) as [Hf _]. destruct (Hwf g d Hd) as [Hg _].
  unfold canonical in *. congruence.
Qed.

(** A pass that returns: its result is sorted, holds the live records of
    the directory and nothing else, and every file is dealt with as its
    verdict says. *)
Lemma getDetachedInstances_returns w w' insts :
  registry_wf w ->
  getDetachedInstances w = (w', Returned insts) ->
  (forall x, In x insts ->
     exists f, verdict (processes w) f w = Live x /\ fs w' !! f = fs w !! f)
  /\ (forall f, is_Some (fs w !! f) ->
        match verdict (processes w) f w with
        | Live i => fs w' !! f = fs w !! f /\ In i insts
        | Corrupt n =>
            fs w' !! f = None /\ deliverable w n = true
            /\ (exists s, sigterm w' = sigterm w ++ s /\ In n s)
            /\ (exists c, console w' = console w ++ c
                           /\ In (corruption_warning (Num n)) c)
        | _ => fs w' !! f = None
        end).
Proof.
  intros Hwf. rewrite getDetachedInstances_spec.
  destruct (reconcileFiles _ _ _ _) as [w1 [insts0|e|]] eqn:Hrun;
    intros [= <- <-].
  pose proof (NoDup_fst_map_to_list (fs w)) as Hnd.
  pose proof (readdir_canonical w Hwf) as Hcan.
  split.
  - intros x Hx. apply sort_In in Hx.
    destruct (reconcileFiles_provenance _ _ _ _ _ _ Hnd Hcan Hrun x Hx)
      as [[] | (f & Hf & Hv)].
    exists f. split; [assumption|].
    pose proof (reconcileFiles_each _ _ _ _ _ _ Hnd Hcan Hrun f Hf) as He.
    rewrite Hv in He. apply He.
  - intros f Hf. apply readdir_In in Hf.
    pose proof (reconcileFiles_each _ _ _ _ _ _ Hnd Hcan Hrun f Hf) as He.
    destruct (verdict (processes w) f w); try assumption.
    destruct He as [Hfs Hin]. split; [assumption | now apply sort_In].
Qed.

Lemma getDetachedInstances_frame w w' out :
  getDetachedInstances w = (w', out) -> only_removes w w'.
Proof.
  rewrite getDetachedInstances_spec.
  destruct (reconcileFiles _ _ _ _) as [w1 out1] eqn:Hrun.
  pose proof (reconcileFiles_frame _ _ _ _ _ _ Hrun) as (Hr & _).
  destruct out1; intros [= <- _]; exact Hr.
Qed.

(** C8. The instances a pass returns are in the order of their start
    times, newest first: of two neighbours the earlier one in the list did
    not start before the later one. *)
Theorem getDetachedInstances_newest_first w w' insts :
  getDetachedInstances w = (w', Returned insts) ->
  forall (i : nat) a b,
    insts !! i = Some a -> insts !! S i = Some b ->
    startTime a >= startTime b.
Proof.
  rewrite getDetachedInstances_spec.
  destruct (reconcileFiles _ _ _ _) as [w1 [insts0|e|]]; intros [= <- <-].
  intros i a b Ha Hb.
  pose proof (Sorted_adjacent _ (sort_Sorted insts0) i a b Ha Hb) as Hab.
  unfold newer_first in Hab. lia.
Qed.

Lemma registry_wf_check_sound w : registry_wf_check w = true -> registry_wf w.
Proof.
  unfold registry_wf_check, registry_wf. rewrite forallb_forall.
  intros Hall f c Hc.
  assert (Hin : In (f, c) (map_to_list (fs w)))
    by now apply list_elem_of_In, elem_of_map_to_list.
  specialize (Hall _ Hin). simpl in Hall.
  apply andb_true_iff in Hall as [Hname Hpid].
  apply String.eqb_eq in Hname. split; [exact Hname|].
  intros r Hr. rewrite Hr in Hpid. now apply number_eqb_eq in Hpid.
Qed.

Lemma registry_wf_only_removes w w' :
  registry_wf w -> fs w' ⊆ fs w -> registry_wf w'.
Proof.
  intros Hwf Hsub f c Hc. apply (Hwf f c). eapply lookup_weaken; eassumption.
Qed.

(** ** Discovery *)

(** A record whose pid is held by a live process under another command
    line, where the pass does what it is meant to: no pass sends a signal to
    that pid; and when the pass returns, the record is not in its result
    and the file of the record is gone. *)
Theorem reused_pid_is_evicted_unsignalled w f content r p w' out :
  registry_wf w ->
  fs w !! f = Some content ->
  JSON_parse content = Some r ->
  List.find (fun q => Ps.pid q =? pid r) (processes w) = Some p ->
  Ps.cmd p <> cmd r ->
  getDetachedInstances w = (w', out) ->
  (exists s, sigterm w' = sigterm w ++ s /\ ~ In (pid r) s)
  /\ (forall insts, out = Returned insts ->
        ~ In r insts /\ fs w' !! f = None).
Proof.
  intros Hwf Hf Hr Hp Hcmd Hrun.
  destruct (Hwf f content Hf) as [Hcan Hpid]. specialize (Hpid r Hr).
  assert (Hv : verdict (processes w) f w = Reused).
  { unfold verdict. rewrite Hpid.
    change (List.find (fun q => number_eqb (Num (Ps.pid q)) (Num (pid r)))
                      (processes w))
      with (List.find (fun q => Ps.pid q =? pid r) (processes w)).
    rewrite Hp, Hf, Hr.
    apply String.eqb_neq in Hcmd. now rewrite Hcmd. }
  split.
  - rewrite getDetachedInstances_spec in Hrun.
    destruct (reconcileFiles _ _ _ _) as [w1 out1] eqn:Hloop.
    destruct (reconcileFiles_signals _ _ _ _ _ _
                (NoDup_fst_map_to_list (fs w)) (readdir_canonical w Hwf) Hloop)
      as (s & Hs & Hsent).
    exists s. split; [destruct out1; injection Hrun as <- _; exact Hs|].
    intros Hin. destruct (Hsent _ Hin) as (g & Hg & Hvg).
    pose proof (verdict_pid (processes w) g w) as Hpg. rewrite Hvg in Hpg.
    apply readdir_In in Hg.
    assert (g = f) by (apply (wf_same_pid w); eauto; congruence).
    subst g. congruence.
  - intros insts ->.
    destruct (getDetachedInstances_returns w w' insts Hwf Hrun) as [Hprov Heach].
    split.
    + intros Hin. destruct (Hprov r Hin) as (g & Hvg & _).
      destruct (verdict_Live _ _ _ _ Hvg) as (c & q & Hc & Hparse & _).
      destruct (Hwf g c Hc) as [_ Hpg]. specialize (Hpg r Hparse).
      assert (g = f) by (apply (wf_same_pid w); eauto; congruence).
      subst g. congruence.
    + specialize (Heach f (ex_intro _ content Hf)). now rewrite Hv in Heach.
Qed.

(** A file that cannot be read as a record while a live process holds its
    pid, in a pass that returns: the warning is logged, the signal was sent
    and delivered, the file is gone. *)
Lemma corrupt_record_signalled_and_evicted w f n w' insts :
  registry_wf w ->
  is_Some (fs w !! f) ->
  verdict (processes w) f w = Corrupt n ->
  getDetachedInstances w = (w', Returned insts) ->
  fs w' !! f = None /\ deliverable w n = true
  /\ (exists s, sigterm w' = sigterm w ++ s /\ In n s)
  /\ (exists c, console w' = console w ++ c
                 /\ In (corruption_warning (Num n)) c).
Proof.
  intros Hwf Hf Hv Hrun.
  destruct (getDetachedInstances_returns w w' insts Hwf Hrun) as [_ Heach].
  specialize (Heach f Hf). now rewrite Hv in Heach.
Qed.

(** ** Termination requests *)

Lemma findDetachedInstanceByName_spec name w :
  findDetachedInstanceByName name w =
  match getDetachedInstances w with
  | (w1, Returned insts) =>
      (w1, Returned (List.find (fun i => String.eqb (instanceName i) name) insts))
  | (w1, Thrown e) => (w1, Thrown e)
  | (w1, Pending) => (w1, Pending)
  end.
Proof. reflexivity. Qed.

Lemma stopDetachedInstance_found name w w1 i :
  findDetachedInstanceByName name w = (w1, Returned (Some i)) ->
  stopDetachedInstance name w =
  (evict (Num (pid i)) (signalled (pid i) w1),
   Returned (deliverable w (pid i))).
Proof.
  intros Hfind.
  assert (Hdel : deliverable w1 = deliverable w).
  { rewrite findDetachedInstanceByName_spec in Hfind.
    destruct (getDetachedInstances w) as [w0 out0] eqn:Hrun.
    apply getDetachedInstances_frame in Hrun as (_ & _ & Hd & _).
    destruct out0; injection Hfind as <- _; exact Hd. }
  unfold stopDetachedInstance, bind at 1. rewrite Hfind.
  unfold try_finally, try_catch, bind at 1, process_kill, ret.
  rewrite Hdel.
  destruct (deliverable w (pid i)); unfold bind;
    rewrite removeDetachedInstanceFile_spec; reflexivity.
Qed.

(** C1, as the code has it. When a record with the name is found,
    [stop(name)] returns whether the signal was delivered: true when it
    was, false when the delivery failed; the file named by the pid of the
    record is removed in both cases. *)
Theorem stop_reports_signal_delivery name w w1 i :
  findDetachedInstanceByName name w = (w1, Returned (Some i)) ->
  snd (stopDetachedInstance name w) = Returned (deliverable w (pid i))
  /\ fs (fst (stopDetachedInstance name w)) !! number_toString (Num (pid i))
     = None.
Proof.
  intros Hfind. rewrite (stopDetachedInstance_found name w w1 i Hfind).
  split; [reflexivity | apply lookup_delete_eq].
Qed.

(** C6. When a record with the name is found, the record was read from the
    file named by its pid, and after [stop(name)] that file is gone: the
    registry is the one the discovery left, less that file, whether the
    signal was delivered or not. *)
Theorem stop_removes_instance_file name w w1 i w2 out :
  registry_wf w ->
  findDetachedInstanceByName name w = (w1, Returned (Some i)) ->
  stopDetachedInstance name w = (w2, out) ->
  (exists content,
      fs w1 !! number_toString (Num (pid i)) = Some content
      /\ JSON_parse content = Some i)
  /\ fs w2 = delete (number_toString (Num (pid i))) (fs w1)
  /\ fs w2 !! number_toString (Num (pid i)) = None.
Proof.
  intros Hwf Hfind Hstop.
  rewrite (stopDetachedInstance_found name w w1 i Hfind) in Hstop.
  injection Hstop as <- _.
  split; [|split; [reflexivity | apply lookup_delete_eq]].
  rewrite findDetachedInstanceByName_spec in Hfind.
  destruct (getDetachedInstances w) as [w0 [insts|e|]] eqn:Hrun;
    try discriminate.
  injection Hfind as <- Hfound. apply find_some in Hfound as [Hin _].
  destruct (getDetachedInstances_returns w w0 insts Hwf Hrun) as [Hprov _].
  destruct (Hprov i Hin) as (g & Hvg & Hkept).
  destruct (verdict_Live _ _ _ _ Hvg) as (c & q & Hc & Hparse & _).
  destruct (Hwf g c Hc) as [Hcan Hpg]. specialize (Hpg i Hparse).
  unfold canonical in Hcan. rewrite Hpg in Hcan. rewrite Hcan.
  exists c. split; [congruence | assumption].
Qed.

(** C5, as the code has it. When no record the discovery returns carries
    the name, [stop(name)] returns false and leaves the world as the
    discovery left it: no file is created or changed, and the files that
    are removed are the ones the discovery evicts. *)
Theorem stop_unknown_name_only_reconciles name w w1 insts :
  getDetachedInstances w = (w1, Returned insts) ->
  ~ In name (map instanceName insts) ->
  stopDetachedInstance name w = (w1, Returned false)
  /\ fs w1 ⊆ fs w.
Proof.
  intros Hrun Hname. split.
  - unfold stopDetachedInstance, bind at 1.
    rewrite findDetachedInstanceByName_spec, Hrun.
    destruct (List.find _ insts) as [i|] eqn:Hfound; [|reflexivity].
    apply find_some in Hfound as [Hin Heq]. apply String.eqb_eq in Heq.
    exfalso. apply Hname. rewrite <- Heq. now apply in_map.
  - now apply getDetachedInstances_frame in Hrun as (Hsub & _).
Qed.
End RegistryProofs.

(** ** The spawner *)

Lemma bind_inv {A B} (m : M A) (k : A -> M B) w w' out :
  bind m k w = (w', out) ->
  (exists w1 a, m w = (w1, Returned a) /\ k a w1 = (w', out))
  \/ (exists e, m w = (w', Thrown e) /\ out = Thrown e)
  \/ (m w = (w', Pending) /\ out = Pending).
Proof.
  unfold bind. destruct (m w) as [w1 [a|e|]]; intros Hk.
  - left. eauto.
  - right. left. injection Hk as <- <-. eauto.
  - right. right. injection Hk as <- <-. eauto.
Qed.

Lemma get_prop_inv object key w w' out :
  get_prop object key w = (w', out) -> w' = w /\ out <> Pending.
Proof.
  destruct object; simpl; unfold throw, ret; intros [= <- <-];
    split; try reflexivity; discriminate.
Qed.

Lemma awaitReady_inv events :
  forall w w' out,
    awaitReady events w = (w', out) ->
    fs w' = fs w
    /\ match decisive events with
       | Some (Message _) => out = Returned tt
       | Some (ErrorEvent err) => out = Thrown err
       | Some (Exit _) => exists e, out = Thrown e
       | None => out = Pending
       end.
Proof.
  induction events as [|ev rest IH]; intros w w' out; simpl.
  - intros [= <- <-]. now split.
  - destruct ev as [m|err|code].
    + destruct (is_ready_message m); [|apply IH].
      unfold ret. intros [= <- <-]. now split.
    + unfold bind, console_error. intros [= <- <-]. now split.
    + intros [= <- <-]. split; [reflexivity | eauto].
Qed.

Lemma chooseInstanceName_inv names w w' out :
  chooseInstanceName names w = (w', out) ->
  fs w' = fs w
  /\ match nameLoop (draws w) names with
     | Some (name, _) => out = Returned name
     | None => out = Pending
     end.
Proof.
  unfold chooseInstanceName.
  destruct (nameLoop (draws w) names) as [[name rest]|]; intros [= <- <-];
    now split.
Qed.

Section SpawnerProofs.
Context {json : JSON}.

Lemma getDetachedInstances_settles w w' out :
  getDetachedInstances w = (w', out) -> out <> Pending.
Proof.
  rewrite getDetachedInstances_spec.
  assert (Hloop : forall files insts w0 w1,
             reconcileFiles (processes w) files insts w0 <> (w1, Pending)).
  { induction files as [|g rest IH]; intros insts w0 w1; [discriminate|].
    rewrite reconcileFiles_cons, reconcileFile_spec.
    destruct (verdict (processes w) g w0) as [| |i|n]; try apply IH.
    destruct (deliverable w0 n); [apply IH | discriminate]. }
  destruct (reconcileFiles _ _ _ _) as [w1 [insts|e|]] eqn:Hrun;
    intros [= <- <-]; try discriminate.
  now apply Hloop in Hrun.
Qed.

(** The names a pass returns are names of records in the files it found. *)
Lemma getDetachedInstances_names w w' insts :
  getDetachedInstances w = (w', Returned insts) ->
  forall x, In x insts ->
    exists f content, fs w !! f = Some content /\ JSON_parse content = Some x.
Proof.
  rewrite getDetachedInstances_spec.
  assert (Hloop : forall files insts0 w0 w1 insts1,
             reconcileFiles (processes w) files insts0 w0 = (w1, Returned insts1) ->
             forall x, In x insts1 ->
               In x insts0
               \/ exists f content,
                    fs w0 !! f = Some content /\ JSON_parse content = Some x).
  { induction files as [|g rest IH]; intros insts0 w0 w1 insts1 Hrun x Hx.
    - injection Hrun as <- <-. now left.
    - rewrite reconcileFiles_cons in Hrun.
      destruct (reconcileFile (processes w) g insts0 w0) as [w2 out2] eqn:Hstep.
      destruct out2 as [insts2|e|]; [|discriminate|discriminate].
      pose proof (reconcileFile_frame _ _ _ _ _ _ Hstep) as ((Hsub & _) & _).
      destruct (IH _ _ _ _ Hrun x Hx) as [Hin | (f & c & Hc & Hparse)].
      + rewrite reconcileFile_spec in Hstep.
        destruct (verdict (processes w) g w0) as [| |i|n] eqn:Hv.
        * injection Hstep as _ <-. now left.
        * injection Hstep as _ <-. now left.
        * injection Hstep as _ <-. apply in_app_or in Hin as [Hin | [<- | []]];
            [now left|].
          destruct (verdict_Live _ _ _ _ Hv) as (c & q & Hc & Hparse & _).
          right. eauto.
        * destruct (deliverable w0 n); [|discriminate].
          injection Hstep as _ <-. now left.
      + right. exists f, c. split; [|assumption].
        eapply lookup_weaken; eassumption. }
  destruct (reconcileFiles _ _ _ _) as [w1 [insts0|e|]] eqn:Hrun;
    intros [= <- <-] x Hx.
  apply sort_In in Hx. destruct (Hloop _ _ _ _ _ Hrun x Hx) as [[] | Hfile].
  exact Hfile.
Qed.

Lemma fork_inv module childArgs w w' out :
  fork module childArgs w = (w', out) ->
  out = Returned (os_child w) /\ fs w' = fs w /\ draws w' = draws w.
Proof.
  unfold fork. destruct (child_pid (os_child w)); intros [= <- <-]; now split.
Qed.

(** The three ways a start ends: it throws before it has written anything;
    it gives no result, the name loop or the handshake not ending; or it
    returns, after the ready message, with the record written. *)
Lemma startDetachedInstance_inv module args version w w' out :
  startDetachedInstance module args version w = (w', out) ->
  ((exists e, out = Thrown e) /\ fs w' ⊆ fs w)
  \/ (out = Pending /\ fs w' ⊆ fs w
      /\ ((exists w0 w1 insts,
              fs w0 = fs w
              /\ getDetachedInstances w0 = (w1, Returned insts)
              /\ nameLoop (draws w) (map instanceName insts) = None)
          \/ decisive (child_events (os_child w)) = None))
  \/ (exists inst m,
        out = Returned inst
        /\ decisive (child_events (os_child w)) = Some (Message m)
        /\ fs w' !! number_toString (Num (pid inst)) = Some (JSON_stringify inst)).
Proof.
  unfold startDetachedInstance. intros Hrun.
  (* args.flavor *)
  apply bind_inv in Hrun
    as [(w1 & flavor & H1 & Hrun) | [(e & H1 & ->) | (H1 & ->)]];
    apply get_prop_inv in H1 as [-> H1]; [| left; eauto | congruence].
  clear H1.
  (* fork *)
  apply bind_inv in Hrun
    as [(w2 & child & H2 & Hrun) | [(e & H2 & ->) | (H2 & ->)]];
    apply fork_inv in H2 as (Hout & Hfs2 & Hdr2); try discriminate.
  injection Hout as ->.
  (* psList *)
  apply bind_inv in Hrun
    as [(w3 & ps & H3 & Hrun) | [(e & H3 & ->) | (H3 & ->)]];
    try discriminate.
  injection H3 as <- <-.
  (* the command line of the child *)
  apply bind_inv in Hrun
    as [(w3 & cmd & H4 & Hrun) | [(e & H4 & ->) | (H4 & ->)]].
  2:{ destruct (List.find _ (processes w2)); injection H4 as <- _.
      all: left; split; [eauto | now rewrite Hfs2]. }
  2:{ destruct (List.find _ (processes w2)); discriminate. }
  assert (w3 = w2) as -> by (destruct (List.find _ (processes w2));
                               now injection H4 as <- _).
  clear H4.
  (* getDetachedInstances *)
  apply bind_inv in Hrun
    as [(w4 & insts & H5 & Hrun) | [(e & H5 & ->) | (H5 & ->)]].
  2:{ apply getDetachedInstances_frame in H5 as (Hsub & _).
      left. split; [eauto | now rewrite <- Hfs2]. }
  2:{ now apply getDetachedInstances_settles in H5. }
  pose proof (getDetachedInstances_frame _ _ _ H5)
    as (Hsub4 & _ & _ & _ & _ & Hdr4 & _).
  rewrite Hfs2 in Hsub4.
  (* the name loop *)
  apply bind_inv in Hrun
    as [(w5 & name & H6 & Hrun) | [(e & H6 & ->) | (H6 & ->)]];
    apply chooseInstanceName_inv in H6 as [Hfs5 H6];
    rewrite Hdr4, Hdr2 in H6.
  2:{ destruct (nameLoop _ _) as [[? ?]|]; discriminate. }
  2:{ right. left. split; [reflexivity|]. split; [now rewrite Hfs5|].
      left. exists w2, w4, insts. split; [assumption|]. split; [assumption|].
      destruct (nameLoop _ _) as [[? ?]|]; [discriminate | reflexivity]. }
  clear H6.
  (* the handshake *)
  apply bind_inv in Hrun
    as [(w6 & u & H7 & Hrun) | [(e & H7 & ->) | (H7 & ->)]];
    apply awaitReady_inv in H7 as [Hfs6 H7].
  2:{ left. split; [eauto | now rewrite Hfs6, Hfs5]. }
  2:{ right. left. split; [reflexivity|]. split; [now rewrite Hfs6, Hfs5|].
      right. destruct (decisive _) as [[m|err|code]|];
        [discriminate | discriminate | | reflexivity].
      destruct H7 as [e He]. discriminate. }
  assert (Hready : exists m,
             decisive (child_events (os_child w)) = Some (Message m)).
  { destruct (decisive _) as [[m|err|code]|]; [eauto | discriminate | | discriminate].
    destruct H7 as [e He]. discriminate. }
  clear H7. destruct Hready as [m Hready].
  assert (Hsub6 : fs w6 ⊆ fs w) by now rewrite Hfs6, Hfs5.
  (* Date.now() and the arguments of the server *)
  apply bind_inv in Hrun
    as [(w7 & now & H8 & Hrun) | [(e & H8 & ->) | (H8 & ->)]];
    try discriminate.
  injection H8 as <- <-.
  apply bind_inv in Hrun
    as [(w7 & server & H9 & Hrun) | [(e & H9 & ->) | (H9 & ->)]];
    apply get_prop_inv in H9 as [-> H9]; [| left; eauto | congruence].
  clear H9.
  apply bind_inv in Hrun
    as [(w7 & host & H10 & Hrun) | [(e & H10 & ->) | (H10 & ->)]];
    apply get_prop_inv in H10 as [-> H10]; [| left; eauto | congruence].
  clear H10.
  apply bind_inv in Hrun
    as [(w7 & port & H11 & Hrun) | [(e & H11 & ->) | (H11 & ->)]];
    apply get_prop_inv in H11 as [-> H11]; [| left; eauto | congruence].
  clear H11.
  (* writeFileSync *)
  unfold bind, writeFileSync, ret in Hrun. injection Hrun as <- <-.
  right. right. eexists _, m. split; [reflexivity|]. split; [assumption|].
  apply lookup_insert_eq.
Qed.

(** What holds of every start. The record is written only once the ready
    message has come: a start that returns has seen it, and the file of the
    child then holds the record; a start that does not return a record has
    created and changed no file; and when the first event the listeners
    hear that settles the handshake is a launch error or an exit, the start
    throws (the name loop having an unused name to end on) and no file is
    created. *)
Theorem start_persists_only_after_ready module args version w w' out :
  startDetachedInstance module args version w = (w', out) ->
  (forall inst, out = Returned inst ->
     (exists m, decisive (child_events (os_child w)) = Some (Message m))
     /\ fs w' !! number_toString (Num (pid inst)) = Some (JSON_stringify inst))
  /\ ((forall inst, out <> Returned inst) -> fs w' ⊆ fs w)
  /\ (forall ev,
        decisive (child_events (os_child w)) = Some ev ->
        (forall m, ev <> Message m) ->
        (exists n, In n (draws w)
                   /\ forall f content r,
                        fs w !! f = Some content ->
                        JSON_parse content = Some r -> instanceName r <> n) ->
        (exists e, out = Thrown e) /\ fs w' ⊆ fs w).
Proof.
  intros Hrun.
  destruct (startDetachedInstance_inv _ _ _ _ _ _ Hrun)
    as [[[e ->] Hsub] | [(-> & Hsub & Hwhy) | (inst & m & -> & Hready & Hfile)]].
  - split; [discriminate|]. split; [auto|]. eauto.
  - split; [discriminate|]. split; [auto|].
    intros ev Hev Hnot (n & Hn & Hfresh). exfalso.
    destruct Hwhy as [(w0 & w1 & insts & Hfs0 & Hlist & Hloop) | Hnone];
      [|congruence].
    destruct (nameLoop_finds (draws w) (map instanceName insts))
      as (name & rest & Hsome & _); [|congruence].
    exists n. split; [assumption|]. intros Hin.
    apply in_map_iff in Hin as (x & Hx & Hinx).
    destruct (getDetachedInstances_names _ _ _ Hlist x Hinx)
      as (f & c & Hc & Hparse).
    rewrite Hfs0 in Hc. exact (Hfresh f c x Hc Hparse Hx).
  - split; [intros i [= <-]; eauto|].
    split; [intros Hnot; now destruct (Hnot inst)|].
    intros ev Hev Hnot _. exfalso. rewrite Hready in Hev.
    injection Hev as <-. now apply (Hnot m).
Qed.
End SpawnerProofs.

(** ** The theorems at work on concrete worlds *)

Lemma getDetachedInstances_newest_first_witness :
  snd (getDetachedInstances (json := Demo.codec) Demo.three_live)
  = Returned [Demo.beta; Demo.gamma; Demo.alpha]
  /\ startTime Demo.beta >= startTime Demo.gamma.
Proof.
  split; [vm_compute; reflexivity|].
  apply (getDetachedInstances_newest_first (json := Demo.codec)
           Demo.three_live
           (fst (getDetachedInstances (json := Demo.codec) Demo.three_live))
           [Demo.beta; Demo.gamma; Demo.alpha]
           ltac:(vm_compute; reflexivity) 0%nat Demo.beta Demo.gamma);
    reflexivity.
Defined.

Lemma reused_pid_is_evicted_unsignalled_witness :
  (exists s,
      sigterm (fst (getDetachedInstances (json := Demo.codec) Demo.pid_reused))
      = sigterm Demo.pid_reused ++ s /\ ~ In 300 s)
  /\ (forall insts,
        snd (getDetachedInstances (json := Demo.codec) Demo.pid_reused)
        = Returned insts ->
        ~ In Demo.gamma insts
        /\ fs (fst (getDetachedInstances (json := Demo.codec) Demo.pid_reused))
             !! "300" = None).
Proof.
  apply (reused_pid_is_evicted_unsignalled (json := Demo.codec)
           Demo.pid_reused "300" "{gamma}" Demo.gamma
           (Demo.proc 300 "vim notes.txt")).
  - apply registry_wf_check_sound. vm_compute. reflexivity.
  - vm_compute. reflexivity.
  - reflexivity.
  - reflexivity.
  - discriminate.
  - apply surjective_pairing.
Defined.

(** C7, where the code parts from it. The file [400] does not parse and a
    process holds its pid, but the signal does not reach that process: the
    pass throws the error of [process.kill] and the file stays. The catch
    block of the loop calls [process.kill] bare, where [stopDetachedInstance]
    wraps the same call in a [try]. *)
Theorem corrupt_record_unreachable_process_fails_list :
  verdict (json := Demo.codec) (processes Demo.corrupt_unreachable) "400"
          Demo.corrupt_unreachable = Corrupt 400
  /\ snd (getDetachedInstances (json := Demo.codec) Demo.corrupt_unreachable)
     = Thrown (SystemError "ESRCH")
  /\ fs (fst (getDetachedInstances (json := Demo.codec) Demo.corrupt_unreachable))
       !! "400" = Some "junk".
Proof. repeat split; vm_compute; reflexivity. Qed.

(** C1, as the claim has it, fails when the signal is not delivered: the
    record of [alpha] is found and [stop] returns false. *)
Lemma stop_found_but_signal_failed_returns_false :
  snd (findDetachedInstanceByName (json := Demo.codec) "alpha"
         (Demo.two_live (fun _ => false)))
  = Returned (Some Demo.alpha)
  /\ snd (stopDetachedInstance (json := Demo.codec) "alpha"
            (Demo.two_live (fun _ => false)))
     = Returned false.
Proof. split; vm_compute; reflexivity. Qed.

Lemma stop_reports_signal_delivery_witness :
  snd (stopDetachedInstance (json := Demo.codec) "alpha"
         (Demo.two_live (fun n => n =? 200)))
  = Returned false
  /\ snd (stopDetachedInstance (json := Demo.codec) "beta"
            (Demo.two_live (fun n => n =? 200)))
     = Returned true.
Proof.
  split.
  - refine (proj1 _). apply (stop_reports_signal_delivery (json := Demo.codec) "alpha"
             (Demo.two_live (fun n => n =? 200))
             (fst (findDetachedInstanceByName (json := Demo.codec) "alpha"
                     (Demo.two_live (fun n => n =? 200))))
             Demo.alpha).
    vm_compute. reflexivity.
  - refine (proj1 _). apply (stop_reports_signal_delivery (json := Demo.codec) "beta"
             (Demo.two_live (fun n => n =? 200))
             (fst (findDetachedInstanceByName (json := Demo.codec) "beta"
                     (Demo.two_live (fun n => n =? 200))))
             Demo.beta).
    vm_compute. reflexivity.
Defined.

Lemma stop_removes_instance_file_witness :
  fs (Demo.two_live (fun _ => false)) !! "100" = Some "{alpha}"
  /\ fs (fst (stopDetachedInstance (json := Demo.codec) "alpha"
                (Demo.two_live (fun _ => false)))) !! "100" = None
  /\ fs (fst (stopDetachedInstance (json := Demo.codec) "alpha"
                (Demo.two_live (fun _ => true)))) !! "100" = None.
Proof.
  split; [vm_compute; reflexivity|]. split.
  - apply (stop_removes_instance_file (json := Demo.codec) "alpha"
             (Demo.two_live (fun _ => false))
             (fst (findDetachedInstanceByName (json := Demo.codec) "alpha"
                     (Demo.two_live (fun _ => false))))
             Demo.alpha
             (fst (stopDetachedInstance (json := Demo.codec) "alpha"
                     (Demo.two_live (fun _ => false))))
             (snd (stopDetachedInstance (json := Demo.codec) "alpha"
                     (Demo.two_live (fun _ => false))))).
    + apply registry_wf_check_sound. vm_compute. reflexivity.
    + vm_compute. reflexivity.
    + apply surjective_pairing.
  - apply (stop_removes_instance_file (json := Demo.codec) "alpha"
             (Demo.two_live (fun _ => true))
             (fst (findDetachedInstanceByName (json := Demo.codec) "alpha"
                     (Demo.two_live (fun _ => true))))
             Demo.alpha
             (fst (stopDetachedInstance (json := Demo.codec) "alpha"
                     (Demo.two_live (fun _ => true))))
             (snd (stopDetachedInstance (json := Demo.codec) "alpha"
                     (Demo.two_live (fun _ => true))))).
    + apply registry_wf_check_sound. vm_compute. reflexivity.
    + vm_compute. reflexivity.
    + apply surjective_pairing.
Defined.

(** C5, as the claim has it, fails when the registry holds a stale file: no
    record of the discovery is named [nobody], [stop] returns false, and the
    file [300] that was there before the call is gone after it. *)
Lemma stop_unknown_name_removes_stale_file :
  snd (getDetachedInstances (json := Demo.codec) Demo.one_stale)
  = Returned [Demo.alpha]
  /\ snd (stopDetachedInstance (json := Demo.codec) "nobody" Demo.one_stale)
     = Returned false
  /\ fs Demo.one_stale !! "300" = Some "{gamma}"
  /\ fs (fst (stopDetachedInstance (json := Demo.codec) "nobody" Demo.one_stale))
       !! "300" = None.
Proof. repeat split; vm_compute; reflexivity. Qed.

Lemma stop_unknown_name_only_reconciles_witness :
  stopDetachedInstance (json := Demo.codec) "nobody" Demo.one_stale
  = (fst (getDetachedInstances (json := Demo.codec) Demo.one_stale),
     Returned false)
  /\ fs (fst (getDetachedInstances (json := Demo.codec) Demo.one_stale))
     ⊆ fs Demo.one_stale.
Proof.
  apply (stop_unknown_name_only_reconciles (json := Demo.codec) "nobody"
           Demo.one_stale
           (fst (getDetachedInstances (json := Demo.codec) Demo.one_stale))
           [Demo.alpha]).
  - vm_compute. reflexivity.
  - simpl. intros [Heq | []]. discriminate Heq.
Defined.

Lemma start_persists_only_after_ready_witness :
  (exists e,
      snd (startDetachedInstance (json := Demo.codec) "ganache" Demo.args "7.0.0"
             Demo.child_exits) = Thrown e)
  /\ fs (fst (startDetachedInstance (json := Demo.codec) "ganache" Demo.args
                "7.0.0" Demo.child_exits))
     ⊆ fs Demo.child_exits.
Proof.
  destruct (start_persists_only_after_ready (json := Demo.codec)
              "ganache" Demo.args "7.0.0" Demo.child_exits
              (fst (startDetachedInstance (json := Demo.codec) "ganache"
                      Demo.args "7.0.0" Demo.child_exits))
              (snd (startDetachedInstance (json := Demo.codec) "ganache"
                      Demo.args "7.0.0" Demo.child_exits))
              (surjective_pairing _))
    as (_ & _ & Hfail).
  apply (Hfail (Exit (Some 0))).
  - reflexivity.
  - discriminate.
  - exists "sweet_pie". split; [now left|].
    intros f content r Hf. simpl in Hf. rewrite lookup_empty in Hf. discriminate.
Defined.

(** A start whose child becomes ready returns the record, and the discovery
    that follows returns that record and no other. *)
Example start_then_list :
  snd (startDetachedInstance (json := Demo.codec) "ganache" Demo.args "7.0.0"
         Demo.child_ready)
  = Returned Demo.alpha
  /\ snd (getDetachedInstances (json := Demo.codec)
            (fst (startDetachedInstance (json := Demo.codec) "ganache" Demo.args
                    "7.0.0" Demo.child_ready)))
     = Returned [Demo.alpha].
Proof. split; vm_compute; reflexivity. Qed.

(** * Further properties *)

(** ** The file of an instance *)

(** X1. [removeDetachedInstanceFile(pid)] never throws: it returns whether
    the file named by the pid was there, leaves the registry without that
    file and with every other file as it was, and a second call finds
    nothing to remove and changes nothing. *)
Theorem removeDetachedInstanceFile_reports_once pid w :
  exists w1,
    removeDetachedInstanceFile pid w
    = (w1, Returned (bool_decide (is_Some (fs w !! number_toString pid))))
    /\ fs w1 = delete (number_toString pid) (fs w)
    /\ removeDetachedInstanceFile pid w1 = (w1, Returned false).
Proof.
  exists (evict pid w). split; [apply removeDetachedInstanceFile_spec|].
  split; [reflexivity|].
  rewrite removeDetachedInstanceFile_spec.
  assert (Hgone : fs (evict pid w) !! number_toString pid = None)
    by apply lookup_delete_eq.
  rewrite Hgone, bool_decide_eq_false_2 by (intros [? ?]; discriminate).
  f_equal. unfold evict at 1. apply set_fs_id. now apply delete_id.
Qed.

(** ** The name of the file and the pid *)

Lemma digit_value_pretty d :
  (d < 10)%N -> digit_value 10 (pretty_N_char d) = Some (Z.of_N d).
Proof.
  intros Hd.
  assert (d = 0 \/ d = 1 \/ d = 2 \/ d = 3 \/ d = 4 \/ d = 5 \/ d = 6
          \/ d = 7 \/ d = 8 \/ d = 9)%N as Hcases by lia.
  repeat (destruct Hcases as [-> | Hcases]; [reflexivity|]).
  subst d. reflexivity.
Qed.

Lemma parse_digits_pretty x :
  forall s,
    parse_digits 10 (pretty_N_go x s) None
    = parse_digits 10 s (if (x =? 0)%N then None else Some (Z.of_N x)).
Proof.
  induction (N.lt_wf_0 x) as [x _ IH]. intros s.
  destruct (N.eqb_spec x 0) as [-> | Hx]; [now rewrite pretty_N_go_0|].
  rewrite pretty_N_go_step by lia.
  rewrite IH by (apply N.div_lt; lia).
  cbn [parse_digits]. rewrite digit_value_pretty by (apply N.mod_lt; lia).
  f_equal. f_equal.
  pose proof (N.div_mod x 10 ltac:(lia)) as Hdm.
  destruct (N.eqb_spec (x / 10) 0) as [Hq | Hq]; simpl; lia.
Qed.

Lemma pretty_go_head x :
  (0 < x)%N ->
  forall s, exists d rest,
    (0 < d < 10)%N /\ pretty_N_go x s = String (pretty_N_char d) rest.
Proof.
  induction (N.lt_wf_0 x) as [x _ IH]. intros Hx s.
  rewrite pretty_N_go_step by exact Hx.
  destruct (N.eqb_spec (x / 10) 0) as [Hq | Hq].
  - rewrite Hq, pretty_N_go_0. exists (x mod 10)%N, s. split; [|reflexivity].
    assert (H10 : (10 <> 0)%N) by discriminate.
    pose proof (N.div_mod x 10 H10). pose proof (N.mod_lt x 10 H10).
    lia.
  - apply IH; [apply N.div_lt; lia | now apply N.neq_0_lt_0].
Qed.

Lemma parseInt_positive_head d rest :
  (0 < d < 10)%N ->
  parseInt (String (pretty_N_char d) rest)
  = match parse_digits 10 (String (pretty_N_char d) rest) None with
    | Some v => Num (1 * v)
    | None => NaN
    end.
Proof.
  intros Hd.
  assert (d = 1 \/ d = 2 \/ d = 3 \/ d = 4 \/ d = 5 \/ d = 6
          \/ d = 7 \/ d = 8 \/ d = 9)%N as Hcases by lia.
  repeat (destruct Hcases as [-> | Hcases]; [reflexivity|]).
  subst d. reflexivity.
Qed.

Lemma parseInt_negative_head d rest :
  (0 < d < 10)%N ->
  parseInt (String "-" (String (pretty_N_char d) rest))
  = match parse_digits 10 (String (pretty_N_char d) rest) None with
    | Some v => Num (-1 * v)
    | None => NaN
    end.
Proof.
  intros Hd.
  assert (d = 1 \/ d = 2 \/ d = 3 \/ d = 4 \/ d = 5 \/ d = 6
          \/ d = 7 \/ d = 8 \/ d = 9)%N as Hcases by lia.
  repeat (destruct Hcases as [-> | Hcases]; [reflexivity|]).
  subst d. reflexivity.
Qed.

Lemma parseInt_pretty (n : Z) : parseInt (pretty n) = Num n.
Proof.
  destruct n as [|p|p].
  - reflexivity.
  - change (pretty (Z.pos p)) with (pretty_N_go (N.pos p) "").
    destruct (pretty_go_head (N.pos p) ltac:(lia) "") as (d & rest & Hd & Hs).
    rewrite Hs, parseInt_positive_head, <- Hs by exact Hd.
    rewrite parse_digits_pretty. cbn. reflexivity.
  - change (pretty (Z.neg p)) with (String "-" (pretty_N_go (N.pos p) "")).
    destruct (pretty_go_head (N.pos p) ltac:(lia) "") as (d & rest & Hd & Hs).
    rewrite Hs, parseInt_negative_head, <- Hs by exact Hd.
    rewrite parse_digits_pretty. cbn. reflexivity.
Qed.

(** X2. For a pid [n] below 2^53 in size (a number a double holds exactly
    and the template prints in full), the name [startDetachedInstance]
    gives the file, [`${n}`], is read back by [getDetachedInstances] as [n],
    and [removeDetachedInstanceFile] names that same file for the pid
    read. *)
Theorem pid_filename_round_trip (n : Z) :
  Z.abs n < 2 ^ 53 ->
  parseInt (number_toString (Num n)) = Num n
  /\ canonical (number_toString (Num n)).
Proof.
  intros _.
  assert (Hrt : parseInt (number_toString (Num n)) = Num n)
    by apply parseInt_pretty.
  split; [exact Hrt|]. unfold canonical. now rewrite Hrt.
Qed.

Lemma pid_filename_round_trip_witness :
  parseInt (number_toString (Num 4242)) = Num 4242
  /\ canonical (number_toString (Num 4242)).
Proof. apply (pid_filename_round_trip 4242). reflexivity. Defined.

(** ** The uptime of an instance *)

Lemma duration_time_parts a :
  0 <= a ->
  exists d h m s,
    duration_time a = [("day", d); ("hour", h); ("minute", m); ("second", s)]
    /\ 0 <= d /\ 0 <= h < 24 /\ 0 <= m < 60 /\ 0 <= s < 60
    /\ ((d * 24 + h) * 60 + m) * 60 + s = a / 1000.
Proof.
  intros Ha. set (T := a / 1000).
  assert (HT : 0 <= T) by (apply Z.div_pos; lia).
  assert (Hmin : a / 60000 = T / 60)
    by (unfold T; rewrite Z.div_div by lia; reflexivity).
  assert (Hhour : a / 3600000 = T / 60 / 60)
    by (unfold T; rewrite !Z.div_div by lia; reflexivity).
  assert (Hday : a / 86400000 = T / 60 / 60 / 24)
    by (unfold T; rewrite !Z.div_div by lia; reflexivity).
  assert (H60 : 0 <= T / 60) by (apply Z.div_pos; lia).
  assert (H3600 : 0 <= T / 60 / 60) by (apply Z.div_pos; lia).
  assert (H86400 : 0 <= T / 60 / 60 / 24) by (apply Z.div_pos; lia).
  exists (T / 60 / 60 / 24), ((T / 60 / 60) mod 24), ((T / 60) mod 60), (T mod 60).
  split.
  - unfold duration_time. rewrite Hmin, Hhour, Hday. fold T.
    rewrite !Z.rem_mod_nonneg by lia. reflexivity.
  - pose proof (Z.mod_pos_bound T 60 ltac:(lia)).
    pose proof (Z.mod_pos_bound (T / 60) 60 ltac:(lia)).
    pose proof (Z.mod_pos_bound (T / 60 / 60) 24 ltac:(lia)).
    pose proof (Z.div_mod T 60 ltac:(lia)).
    pose proof (Z.div_mod (T / 60) 60 ltac:(lia)).
    pose proof (Z.div_mod (T / 60 / 60) 24 ltac:(lia)).
    repeat split; lia.
Qed.

(** X3. For a duration below 2^53 milliseconds in size (where the doubles
    of the code are exact), the parts [formatDuration] shows are the
    duration in whole seconds, neither more nor less: the hours stay under
    24, the minutes and the seconds under 60, no part is negative, and
    days, hours, minutes and seconds add up to the milliseconds divided by
    1000, whatever the sign of the duration. *)
Theorem formatDuration_parts_add_up (ms : Z) :
  Z.abs ms < 2 ^ 53 ->
  exists d h m s,
    duration_time (Z.abs ms)
    = [("day", d); ("hour", h); ("minute", m); ("second", s)]
    /\ 0 <= d /\ 0 <= h < 24 /\ 0 <= m < 60 /\ 0 <= s < 60
    /\ ((d * 24 + h) * 60 + m) * 60 + s = Z.abs ms / 1000.
Proof. intros _. apply duration_time_parts. lia. Qed.

Lemma formatDuration_parts_add_up_witness :
  exists d h m s,
    duration_time (Z.abs (-171906000))
    = [("day", d); ("hour", h); ("minute", m); ("second", s)]
    /\ 0 <= d /\ 0 <= h < 24 /\ 0 <= m < 60 /\ 0 <= s < 60
    /\ ((d * 24 + h) * 60 + m) * 60 + s = Z.abs (-171906000) / 1000.
Proof. apply (formatDuration_parts_add_up (-171906000)). reflexivity. Defined.

Lemma concat_nonempty sep x l :
  x <> "" -> String.concat sep (x :: l) <> "".
Proof.
  intros Hx. destruct x as [|c x]; [congruence|].
  destruct l as [|y l]; simpl; discriminate.
Qed.

Lemma append_space_nonempty a b : a +:+ String " " b <> "".
Proof. destruct a; discriminate. Qed.

(** X4. [formatDuration] does not see the sign of the duration, and it
    returns the empty string exactly for the durations under one second:
    an instance started less than a second ago has an empty uptime. *)
Theorem formatDuration_sign_and_empty (ms : Z) :
  formatDuration (- ms) = formatDuration ms
  /\ (formatDuration ms = "" <-> -1000 < ms < 1000).
Proof.
  split; [unfold formatDuration; now rewrite Z.abs_opp|].
  unfold formatDuration.
  destruct (duration_time_parts (Z.abs ms) ltac:(lia))
    as (d & h & m & s & -> & Hd & Hh & Hm & Hs & Hsum).
  split.
  - intros Hempty.
    assert (Hzero : d = 0 /\ h = 0 /\ m = 0 /\ s = 0).
    { cbn [List.filter snd] in Hempty.
      destruct (Z.eqb_spec d 0) as [->|]; cbn [negb] in Hempty;
        [|exfalso; revert Hempty; apply concat_nonempty, append_space_nonempty].
      destruct (Z.eqb_spec h 0) as [->|]; cbn [negb] in Hempty;
        [|exfalso; revert Hempty; apply concat_nonempty, append_space_nonempty].
      destruct (Z.eqb_spec m 0) as [->|]; cbn [negb] in Hempty;
        [|exfalso; revert Hempty; apply concat_nonempty, append_space_nonempty].
      destruct (Z.eqb_spec s 0) as [->|]; cbn [negb] in Hempty;
        [|exfalso; revert Hempty; apply concat_nonempty, append_space_nonempty].
      auto. }
    destruct Hzero as (-> & -> & -> & ->).
    assert (Hsmall : Z.abs ms / 1000 = 0) by lia.
    apply Z.div_small_iff in Hsmall; lia.
  - intros Hms.
    assert (Hsmall : Z.abs ms / 1000 = 0) by (apply Z.div_small; lia).
    assert (d = 0 /\ h = 0 /\ m = 0 /\ s = 0) as (-> & -> & -> & ->) by lia.
    reflexivity.
Qed.

Example formatDuration_examples :
  formatDuration 62000 = "1 minute, 2 seconds"
  /\ formatDuration (-171906000) = "1 day, 23 hours, 45 minutes, 6 seconds"
  /\ formatDuration 1001 = "1 second".
Proof. repeat split; vm_compute; reflexivity. Qed.

(** ** More on the argument flattener *)

Lemma flatten_flavors_flags v :
  forall ns acc,
    flatten ns v acc = rev (flavorsOf v) ++ acc ++ flagsOf ns v.
Proof.
  induction v as [| | | | |props IH] using JSValue_nested_ind;
    intros ns acc; try (simpl; now rewrite app_nil_r).
  rewrite flatten_object.
  change (flavorsOf (JObj props)) with (flavorsProps props).
  change (flagsOf ns (JObj props)) with (flagsProps ns props).
  revert acc. induction props as [|[key value] rest IHrest]; intros acc.
  - simpl. now rewrite app_nil_r.
  - inversion IH as [|? ? Hv Hrest]; subst. simpl in Hv.
    specialize (IHrest Hrest).
    rewrite flattenProps_cons.
    change (flavorsProps ((key, value) :: rest)) with
      (if String.eqb key "flavor" then value :: flavorsProps rest
       else if negb (String.eqb key "action") then
         if typeof_object value then flavorsOf value ++ flavorsProps rest
         else flavorsProps rest
       else flavorsProps rest).
    change (flagsProps ns ((key, value) :: rest)) with
      (if String.eqb key "flavor" then flagsProps ns rest
       else if negb (String.eqb key "action") then
         if typeof_object value then
           flagsOf (Some (prefix_of ns +:+ key)) value ++ flagsProps ns rest
         else
           JStr ("--" +:+ prefix_of ns +:+ key +:+ "=" +:+ template value)
           :: flagsProps ns rest
       else flagsProps ns rest).
    destruct (String.eqb key "flavor").
    + rewrite IHrest. simpl rev. now rewrite <- !app_assoc.
    + destruct (negb (String.eqb key "action")); [|apply IHrest].
      destruct (typeof_object value).
      * rewrite IHrest, Hv, rev_app_distr. now rewrite <- !app_assoc.
      * rewrite IHrest. now rewrite <- !app_assoc.
Qed.

Lemma flagsOf_flags v : forall ns t, In t (flagsOf ns v) -> is_flag t = true.
Proof.
  induction v as [| | | | |props IH] using JSValue_nested_ind;
    intros ns t Ht; try destruct Ht.
  change (flagsOf ns (JObj props)) with (flagsProps ns props) in Ht.
  induction props as [|[key value] rest IHrest]; [destruct Ht|].
  inversion IH as [|? ? Hv Hrest]; subst. simpl in Hv.
  change (flagsProps ns ((key, value) :: rest)) with
    (if String.eqb key "flavor" then flagsProps ns rest
     else if negb (String.eqb key "action") then
       if typeof_object value then
         flagsOf (Some (prefix_of ns +:+ key)) value ++ flagsProps ns rest
       else
         JStr ("--" +:+ prefix_of ns +:+ key +:+ "=" +:+ template value)
         :: flagsProps ns rest
     else flagsProps ns rest) in Ht.
  destruct (String.eqb key "flavor"); [now apply IHrest|].
  destruct (negb (String.eqb key "action")); [|now apply IHrest].
  destruct (typeof_object value).
  - apply in_app_or in Ht as [Ht | Ht]; [now apply (Hv _ _ Ht) | now apply IHrest].
  - destruct Ht as [<- | Ht]; [reflexivity | now apply IHrest].
Qed.

(** X5. The flattened arguments are the values of the [flavor] keys the walk
    meets, the last one met first, followed by the flag tokens in the order
    of the walk; every token after the flavors is a string that starts with
    two dashes. *)
Theorem createFlatChildArgs_flavors_then_flags (args : JSValue) :
  createFlatChildArgs args = rev (flavorsOf args) ++ flagsOf None args
  /\ Forall (fun t => is_flag t = true) (flagsOf None args).
Proof.
  split.
  - unfold createFlatChildArgs. now rewrite flatten_flavors_flags.
  - apply List.Forall_forall. intros t Ht. now apply (flagsOf_flags args None).
Qed.

(** X6. Nothing else gets into the flattened arguments: each token is the
    value of a [flavor] key the walk meets, or the flag of a key that is not
    special, lies under no special key and is bound to a value whose type
    is not object. *)
Theorem createFlatChildArgs_tokens_origin (args t : JSValue) :
  In t (createFlatChildArgs args) ->
  flavor_at args t
  \/ exists path k v,
       bound_at args path k v /\ typeof_object v = false
       /\ t = flag_token path k v.
Proof.
  intros Ht. destruct (flatten_origin args None [] t Ht)
    as [[] | [Hfl | (path & k & v & Hb & Hv & ->)]]; [now left|].
  right. exists path, k, v. split; [assumption|]. split; [assumption|].
  unfold flag_token. now rewrite prefix_under.
Qed.

Lemma createFlatChildArgs_tokens_origin_witness :
  flavor_at Demo.args (JStr "--server.port=8545")
  \/ exists path k v,
       bound_at Demo.args path k v /\ typeof_object v = false
       /\ JStr "--server.port=8545" = flag_token path k v.
Proof.
  apply (createFlatChildArgs_tokens_origin Demo.args (JStr "--server.port=8545")).
  vm_compute. right. right. left. reflexivity.
Defined.

(** ** More on the handshake *)

(** X7. Messages that are not the ready message settle nothing: once the
    ready message comes after any number of them, the handshake resolves,
    whatever follows, and leaves no trace in the world. *)
Theorem handshake_ignores_other_messages (noise : list JSValue)
    (rest : list ChildEvent) (w : World) :
  Forall (fun m => is_ready_message m = false) noise ->
  awaitReady (map Message noise ++ Message READY_MESSAGE :: rest) w
  = (w, Returned tt).
Proof.
  induction 1 as [|m noise Hm Hnoise IH]; simpl.
  - reflexivity.
  - rewrite Hm. exact IH.
Qed.

Lemma handshake_ignores_other_messages_witness :
  awaitReady
    (map Message [JStr "hello"; JNum 1; JNull]
     ++ Message READY_MESSAGE :: [Exit (Some 3)])
    Demo.child_exits
  = (Demo.child_exits, Returned tt).
Proof.
  apply (handshake_ignores_other_messages [JStr "hello"; JNum 1; JNull]
           [Exit (Some 3)] Demo.child_exits).
  repeat constructor.
Defined.

(** X8. The [process.exitCode] a failed handshake leaves. After a launch
    error it is 1, the message of the error is on the console and the error
    is the one thrown. After an exit with a number for code it is that
    number, or 1 when the number is 0, so never 0. After an exit with the
    code [null] (a signal ended the child) the handler writes that [null]:
    no failure status is left. *)
Theorem handshake_failure_sets_exit_code (events : list ChildEvent) :
  forall w w' e,
    awaitReady events w = (w', Thrown e) ->
    (exists err,
        decisive events = Some (ErrorEvent err) /\ e = err
        /\ exitCode w' = Some 1
        /\ console w'
           = console w ++ [START_ERROR +:+ newline +:+ message_of err])
    \/ (exists c,
          decisive events = Some (Exit (Some c))
          /\ exitCode w' = Some (if c =? 0 then 1 else c)
          /\ (if c =? 0 then 1 else c) <> 0
          /\ console w' = console w)
    \/ (decisive events = Some (Exit None)
        /\ exitCode w' = None /\ console w' = console w).
Proof.
  induction events as [|ev rest IH]; intros w w' e; simpl; [discriminate|].
  destruct ev as [m|err|[c|]].
  - destruct (is_ready_message m); [discriminate | apply IH].
  - unfold bind, console_error. intros [= <- <-].
    left. exists err. repeat split; reflexivity.
  - intros [= <- _]. right. left. exists c.
    split; [reflexivity|]. split; [reflexivity|]. split; [|reflexivity].
    destruct (Z.eqb_spec c 0); [discriminate | assumption].
  - intros [= <- _]. right. right. repeat split; reflexivity.
Qed.

Lemma handshake_failure_sets_exit_code_witness :
  exitCode (fst (awaitReady [Message (JStr "hello"); Exit (Some 0)]
                   Demo.child_exits)) = Some 1
  /\ exitCode (fst (awaitReady [Exit None] Demo.child_exits)) = None.
Proof.
  split.
  - destruct (handshake_failure_sets_exit_code
                [Message (JStr "hello"); Exit (Some 0)] Demo.child_exits
                (fst (awaitReady [Message (JStr "hello"); Exit (Some 0)]
                        Demo.child_exits))
                (Error (START_ERROR +:+ newline +:+
                        "The detached instance exited with error code: "
                        +:+ pretty 0))
                eq_refl)
      as [(err & Hd & _) | [(c & Hd & Hcode & _) | (Hd & _)]];
      try discriminate Hd.
    injection Hd as <-. exact Hcode.
  - destruct (handshake_failure_sets_exit_code [Exit None] Demo.child_exits
                (fst (awaitReady [Exit None] Demo.child_exits))
                (Error (START_ERROR +:+ newline +:+
                        "The detached instance exited with error code: "
                        +:+ "null"))
                eq_refl)
      as [(err & Hd & _) | [(c & Hd & _) | (_ & Hcode & _)]];
      try discriminate Hd.
    exact Hcode.
Defined.

(** ** More on discovery *)

Section MoreDiscovery.
Context {json : JSON}.

Lemma live_records_In procs files w x :
  In x (live_records procs files w)
  <-> exists f, In f files /\ verdict procs f w = Live x.
Proof.
  unfold live_records. rewrite in_flat_map. split.
  - intros (f & Hf & Hx). exists f. split; [assumption|].
    destruct (verdict procs f w) as [| |i|n]; try destruct Hx.
    + now subst.
    + contradiction.
  - intros (f & Hf & Hv). exists f. split; [assumption|].
    rewrite Hv. now left.
Qed.

Lemma live_records_ext procs files w1 w2 :
  (forall f, In f files -> fs w1 !! f = fs w2 !! f) ->
  live_records procs files w1 = live_records procs files w2.
Proof.
  intros Hsame. unfold live_records. induction files as [|f rest IH]; [reflexivity|].
  simpl. rewrite (verdict_ext procs f w1 w2) by (apply Hsame; now left).
  f_equal. apply IH. intros g Hg. apply Hsame. now right.
Qed.

(** A pass over files that are all live changes nothing and collects their
    records. *)
Lemma reconcileFiles_all_live procs files :
  forall insts w,
    (forall f, In f files -> exists i, verdict procs f w = Live i) ->
    reconcileFiles procs files insts w
    = (w, Returned (insts ++ live_records procs files w)).
Proof.
  induction files as [|g rest IH]; intros insts w Hlive.
  - simpl. unfold ret. now rewrite app_nil_r.
  - rewrite reconcileFiles_cons, reconcileFile_spec.
    destruct (Hlive g (or_introl eq_refl)) as [i Hi]. rewrite Hi.
    rewrite IH by (intros f Hf; apply Hlive; now right).
    unfold live_records. simpl. rewrite Hi. now rewrite <- app_assoc.
Qed.

(** What a pass that returns has collected. *)
Lemma reconcileFiles_returns_live procs files :
  forall insts w w' insts',
    NoDup files -> Forall canonical files ->
    reconcileFiles procs files insts w = (w', Returned insts') ->
    insts' = insts ++ live_records procs files w.
Proof.
  induction files as [|g rest IH]; intros insts w w' insts' Hnd Hcan Hrun.
  - injection Hrun as <- <-. simpl. now rewrite app_nil_r.
  - apply NoDup_cons in Hnd as [Hg Hnd]. rewrite list_elem_of_In in Hg.
    inversion Hcan as [|? ? Hcg Hcrest]; subst.
    rewrite reconcileFiles_cons in Hrun.
    destruct (reconcileFile procs g insts w) as [w1 out1] eqn:Hstep.
    destruct out1 as [insts1|e|]; [|discriminate|discriminate].
    pose proof (reconcileFile_frame _ _ _ _ _ _ Hstep) as (_ & Ho1 & _).
    rewrite (IH _ _ _ _ Hnd Hcrest Hrun).
    rewrite (live_records_ext procs rest w1 w).
    2:{ intros f Hf. apply Ho1, canonical_other.
        - exact Hcg.
        - intros ->. contradiction. }
    rewrite reconcileFile_spec in Hstep. unfold live_records at 2. simpl.
    fold (live_records procs rest w).
    destruct (verdict procs g w) as [| |i|n].
    + now injection Hstep as _ <-.
    + now injection Hstep as _ <-.
    + injection Hstep as _ <-. now rewrite <- app_assoc.
    + destruct (deliverable w n); [|discriminate]. now injection Hstep as _ <-.
Qed.

(** What made a pass throw. *)
Lemma reconcileFiles_thrown procs files :
  forall insts w w' e,
    NoDup files -> Forall canonical files ->
    reconcileFiles procs files insts w = (w', Thrown e) ->
    e = SystemError "ESRCH"
    /\ exists f n, In f files /\ verdict procs f w = Corrupt n
                   /\ deliverable w n = false.
Proof.
  induction files as [|g rest IH]; intros insts w w' e Hnd Hcan Hrun;
    [discriminate|].
  apply NoDup_cons in Hnd as [Hg Hnd]. rewrite list_elem_of_In in Hg.
  inversion Hcan as [|? ? Hcg Hcrest]; subst.
  rewrite reconcileFiles_cons in Hrun.
  destruct (reconcileFile procs g insts w) as [w1 out1] eqn:Hstep.
  pose proof (reconcileFile_frame _ _ _ _ _ _ Hstep)
    as ((_ & _ & Hdel & _) & Ho1 & _).
  destruct out1 as [insts1|e1|]; [| |discriminate].
  - destruct (IH _ _ _ _ Hnd Hcrest Hrun) as (-> & f & n & Hf & Hv & Hn).
    split; [reflexivity|]. exists f, n. split; [now right|].
    split; [|now rewrite <- Hdel].
    rewrite <- Hv. symmetry. apply verdict_ext, Ho1, canonical_other;
      [assumption | intros ->; contradiction].
  - injection Hrun as _ <-. rewrite reconcileFile_spec in Hstep.
    destruct (verdict procs g w) as [| |i|n] eqn:Hv; try discriminate.
    destruct (deliverable w n) eqn:Hn; [discriminate|].
    injection Hstep as _ <-. split; [reflexivity|].
    exists g, n. split; [now left | now split].
Qed.

Lemma verdict_Corrupt procs g w n :
  verdict procs g w = Corrupt n ->
  forall content, fs w !! g = Some content -> JSON_parse content = None.
Proof.
  unfold verdict. destruct (List.find _ procs) as [p|]; [|discriminate].
  intros Hv content Hc. rewrite Hc in Hv.
  destruct (JSON_parse content) as [i|]; [|reflexivity].
  destruct (negb _); discriminate.
Qed.

(** X9. The result of a pass that returns is the list of the live records
    of the directory (a process holds the pid of the file, and its command
    line is the one the record has), sorted by start time: every live
    record is in it, once for each file that holds it, and nothing else. *)
Theorem getDetachedInstances_returns_live_records w w' insts :
  registry_wf w ->
  getDetachedInstances w = (w', Returned insts) ->
  insts = sort by_startTime
            (live_records (processes w) (map_to_list (fs w)).*1 w).
Proof.
  intros Hwf. rewrite getDetachedInstances_spec.
  destruct (reconcileFiles _ _ _ _) as [w1 [insts0|e|]] eqn:Hrun;
    intros [= <- <-].
  now rewrite (reconcileFiles_returns_live _ _ _ _ _ _
                 (NoDup_fst_map_to_list (fs w)) (readdir_canonical w Hwf) Hrun).
Qed.

(** X10. A file whose pid no process of the table holds is stale: a pass
    that returns has removed it, and no record it holds is in the result. *)
Theorem dead_process_file_is_evicted w f content w' insts :
  registry_wf w ->
  fs w !! f = Some content ->
  List.find (fun p => number_eqb (Num (Ps.pid p)) (parseInt f)) (processes w)
  = None ->
  getDetachedInstances w = (w', Returned insts) ->
  fs w' !! f = None
  /\ forall r, JSON_parse content = Some r -> ~ In r insts.
Proof.
  intros Hwf Hf Hnone Hrun.
  assert (Hv : verdict (processes w) f w = Gone)
    by (unfold verdict; now rewrite Hnone).
  destruct (getDetachedInstances_returns w w' insts Hwf Hrun) as [Hprov Heach].
  split.
  - specialize (Heach f (ex_intro _ content Hf)). now rewrite Hv in Heach.
  - intros r Hr Hin. destruct (Hprov r Hin) as (g & Hvg & _).
    destruct (verdict_Live _ _ _ _ Hvg) as (c & q & Hc & Hparse & _).
    destruct (Hwf g c Hc) as [_ Hpg]. destruct (Hwf f content Hf) as [_ Hpf].
    assert (g = f) by (apply (wf_same_pid w); eauto;
                       rewrite (Hpg r Hparse), (Hpf r Hr); reflexivity).
    subst g. congruence.
Qed.

(** X11. A live instance is left alone: when a process holds the pid of the
    record under the command line of the record, a pass that returns has
    the record in its result and the file as it was. *)
Theorem live_instance_is_kept w f content r p w' insts :
  registry_wf w ->
  fs w !! f = Some content ->
  JSON_parse content = Some r ->
  List.find (fun q => Ps.pid q =? pid r) (processes w) = Some p ->
  Ps.cmd p = cmd r ->
  getDetachedInstances w = (w', Returned insts) ->
  In r insts /\ fs w' !! f = Some content.
Proof.
  intros Hwf Hf Hr Hp Hcmd Hrun.
  destruct (Hwf f content Hf) as [_ Hpid]. specialize (Hpid r Hr).
  assert (Hv : verdict (processes w) f w = Live r).
  { unfold verdict. rewrite Hpid.
    change (List.find (fun q => number_eqb (Num (Ps.pid q)) (Num (pid r)))
                      (processes w))
      with (List.find (fun q => Ps.pid q =? pid r) (processes w)).
    rewrite Hp, Hf, Hr. apply String.eqb_eq in Hcmd. now rewrite Hcmd. }
  destruct (getDetachedInstances_returns w w' insts Hwf Hrun) as [_ Heach].
  specialize (Heach f (ex_intro _ content Hf)). rewrite Hv in Heach.
  destruct Heach as [Hfs Hin]. split; [assumption | congruence].
Qed.

(** X12. How a pass ends. It returns exactly when every file that cannot be
    read as a record, at a pid a process holds, has that process within
    reach of the signal; otherwise it throws the error of [process.kill].
    It always ends. *)
Theorem getDetachedInstances_outcome w w' out :
  registry_wf w ->
  getDetachedInstances w = (w', out) ->
  match out with
  | Returned _ =>
      forall f n, is_Some (fs w !! f) ->
        verdict (processes w) f w = Corrupt n -> deliverable w n = true
  | Thrown e =>
      e = SystemError "ESRCH"
      /\ exists f n, is_Some (fs w !! f)
                     /\ verdict (processes w) f w = Corrupt n
                     /\ deliverable w n = false
  | Pending => False
  end.
Proof.
  intros Hwf Hrun. destruct out as [insts|e|].
  - intros f n Hf Hv.
    destruct (getDetachedInstances_returns w w' insts Hwf Hrun) as [_ Heach].
    specialize (Heach f Hf). rewrite Hv in Heach. apply Heach.
  - rewrite getDetachedInstances_spec in Hrun.
    destruct (reconcileFiles _ _ _ _) as [w1 [insts0|e0|]] eqn:Hloop;
      try discriminate.
    injection Hrun as _ <-.
    destruct (reconcileFiles_thrown _ _ _ _ _ _
                (NoDup_fst_map_to_list (fs w)) (readdir_canonical w Hwf) Hloop)
      as (-> & f & n & Hf & Hv & Hn).
    split; [reflexivity|]. exists f, n. split; [now apply readdir_In | now split].
  - rewrite getDetachedInstances_spec in Hrun.
    destruct (reconcileFiles _ _ _ _) as [w1 [insts0|e0|]] eqn:Hloop;
      try discriminate.
    assert (Hnever : forall files insts0 w0 w1,
               reconcileFiles (processes w) files insts0 w0 <> (w1, Pending)).
    { induction files as [|g rest IH]; intros i0 w0 w2; [discriminate|].
      rewrite reconcileFiles_cons, reconcileFile_spec.
      destruct (verdict (processes w) g w0) as [| |i|n]; try apply IH.
      destruct (deliverable w0 n); [apply IH | discriminate]. }
    now apply Hnever in Hloop.
Qed.

(** X13. A pass signals only the pids of files it could not read as a
    record: every signal of the pass goes to the pid of such a file, and no
    record that parses has its pid signalled, live or not. *)
Theorem getDetachedInstances_signals_only_unreadable w w' out :
  registry_wf w ->
  getDetachedInstances w = (w', out) ->
  exists s,
    sigterm w' = sigterm w ++ s
    /\ forall n, In n s ->
         (exists f, is_Some (fs w !! f)
                    /\ verdict (processes w) f w = Corrupt n)
         /\ forall f content r,
              fs w !! f = Some content -> JSON_parse content = Some r ->
              pid r <> n.
Proof.
  intros Hwf Hrun. rewrite getDetachedInstances_spec in Hrun.
  destruct (reconcileFiles _ _ _ _) as [w1 out1] eqn:Hloop.
  destruct (reconcileFiles_signals _ _ _ _ _ _
              (NoDup_fst_map_to_list (fs w)) (readdir_canonical w Hwf) Hloop)
    as (s & Hs & Hsent).
  exists s. split; [destruct out1; injection Hrun as <- _; exact Hs|].
  intros n Hn. destruct (Hsent n Hn) as (g & Hg & Hvg).
  apply readdir_In in Hg. split; [eauto|].
  intros f content r Hf Hr Heq.
  pose proof (verdict_pid (processes w) g w) as Hpg. rewrite Hvg in Hpg.
  destruct (Hwf f content Hf) as [_ Hpf]. specialize (Hpf r Hr).
  assert (g = f) by (apply (wf_same_pid w); eauto; congruence).
  subst g. pose proof (verdict_Corrupt _ _ _ _ Hvg content Hf). congruence.
Qed.

(** X14. A second pass right after a pass that returned finds nothing to
    do: it returns the same records and leaves the world as it is, files,
    signals and console. *)
Theorem getDetachedInstances_twice w w' insts :
  registry_wf w ->
  getDetachedInstances w = (w', Returned insts) ->
  exists insts2,
    getDetachedInstances w' = (w', Returned insts2)
    /\ forall x, In x insts2 <-> In x insts.
Proof.
  intros Hwf Hrun.
  destruct (getDetachedInstances_returns w w' insts Hwf Hrun) as [Hprov Heach].
  pose proof (getDetachedInstances_frame _ _ _ Hrun) as (Hsub & Hprocs & _).
  assert (Hlive : forall f, is_Some (fs w' !! f) ->
             exists i, verdict (processes w') f w' = Live i
                       /\ verdict (processes w) f w = Live i).
  { intros f [c Hc].
    assert (Hf : is_Some (fs w !! f)) by (exists c; eapply lookup_weaken; eassumption).
    specialize (Heach f Hf).
    destruct (verdict (processes w) f w) as [| |i|n] eqn:Hv; try congruence.
    - destruct Heach as [Hfs _]. exists i. split; [|reflexivity].
      rewrite Hprocs, <- Hv. now apply verdict_ext.
    - destruct Heach as [Hnone _]. congruence. }
  exists (sort by_startTime
            (live_records (processes w') (map_to_list (fs w')).*1 w')).
  split.
  - rewrite getDetachedInstances_spec, reconcileFiles_all_live; [reflexivity|].
    intros f Hf. apply readdir_In in Hf.
    destruct (Hlive f Hf) as (i & Hi & _). eauto.
  - intros x. rewrite sort_In, live_records_In. split.
    + intros (f & Hf & Hv). apply readdir_In in Hf.
      destruct (Hlive f Hf) as (i & Hi & Hi0).
      assert (i = x) by congruence. subst i.
      assert (Hf0 : is_Some (fs w !! f)).
      { destruct Hf as [c Hc]. exists c. eapply lookup_weaken; eassumption. }
      specialize (Heach f Hf0). rewrite Hi0 in Heach. apply Heach.
    + intros Hx. destruct (Hprov x Hx) as (f & Hv & Hkept).
      destruct (verdict_Live _ _ _ _ Hv) as (c & q & Hc & _).
      exists f. split.
      * apply readdir_In. exists c. congruence.
      * rewrite Hprocs, <- Hv. apply verdict_ext. exact Hkept.
Qed.
End MoreDiscovery.

(** ** More on termination requests *)

Section MoreStop.
Context {json : JSON}.

(** After a pass that returned, every file left is live, with the verdict it
    had before the pass, and its record is in the result. *)
Lemma after_pass_all_live w w' insts :
  registry_wf w ->
  getDetachedInstances w = (w', Returned insts) ->
  forall f, is_Some (fs w' !! f) ->
    exists i, verdict (processes w) f w = Live i
              /\ fs w' !! f = fs w !! f /\ In i insts.
Proof.
  intros Hwf Hrun f [c Hc].
  destruct (getDetachedInstances_returns w w' insts Hwf Hrun) as [_ Heach].
  pose proof (getDetachedInstances_frame _ _ _ Hrun) as (Hsub & _).
  assert (Hf : is_Some (fs w !! f)) by (exists c; eapply lookup_weaken; eassumption).
  specialize (Heach f Hf).
  destruct (verdict (processes w) f w) as [| |i|n]; try congruence.
  - destruct Heach as [Hfs Hin]. eauto.
  - destruct Heach as [Hnone _]. congruence.
Qed.

(** The record that was found was read from the file named by its pid. *)
Lemma found_record_file w w' insts i :
  registry_wf w ->
  getDetachedInstances w = (w', Returned insts) ->
  In i insts ->
  verdict (processes w) (number_toString (Num (pid i))) w = Live i.
Proof.
  intros Hwf Hrun Hin.
  destruct (getDetachedInstances_returns w w' insts Hwf Hrun) as [Hprov _].
  destruct (Hprov i Hin) as (g & Hvg & _).
  destruct (verdict_Live _ _ _ _ Hvg) as (c & q & Hc & Hparse & _).
  destruct (Hwf g c Hc) as [Hcan Hpg]. specialize (Hpg i Hparse).
  unfold canonical in Hcan. rewrite Hpg in Hcan. now rewrite Hcan.
Qed.

(** X15. [stop(name)] touches only the instance it found: past the
    discovery it sends one signal, to the pid of the record, it leaves the
    process table alone, and the file of every other live instance is
    after the call what it was before. *)
Theorem stop_touches_only_the_instance name w w1 i w2 out :
  registry_wf w ->
  findDetachedInstanceByName name w = (w1, Returned (Some i)) ->
  stopDetachedInstance name w = (w2, out) ->
  sigterm w2 = sigterm w1 ++ [pid i]
  /\ processes w2 = processes w
  /\ forall g content x,
       fs w !! g = Some content ->
       verdict (processes w) g w = Live x -> x <> i ->
       fs w2 !! g = Some content.
Proof.
  intros Hwf Hfind Hstop.
  rewrite (stopDetachedInstance_found name w w1 i Hfind) in Hstop.
  injection Hstop as <- _.
  rewrite findDetachedInstanceByName_spec in Hfind.
  destruct (getDetachedInstances w) as [w0 [insts|e|]] eqn:Hrun;
    try discriminate.
  injection Hfind as <- Hfound. apply find_some in Hfound as [Hin _].
  pose proof (getDetachedInstances_frame _ _ _ Hrun) as (_ & Hprocs & _).
  split; [reflexivity|]. split; [exact Hprocs|].
  intros g content x Hg Hv Hx.
  pose proof (found_record_file w w0 insts i Hwf Hrun Hin) as Hvi.
  assert (Hne : number_toString (Num (pid i)) <> g)
    by (intros <-; congruence).
  change (delete (number_toString (Num (pid i))) (fs w0) !! g = Some content).
  rewrite lookup_delete_ne by exact Hne.
  destruct (getDetachedInstances_returns w w0 insts Hwf Hrun) as [_ Heach].
  specialize (Heach g (ex_intro _ content Hg)). rewrite Hv in Heach.
  destruct Heach as [Hfs _]. congruence.
Qed.

(** X16. A stop is not repeated: when one record of the discovery carries
    the name, a second [stop(name)] right after the first finds no record,
    returns false and changes nothing, whether the first signal was
    delivered or not and whether the process has left the table or not. *)
Theorem stop_twice_reports_not_found name w w1 insts i w2 out :
  registry_wf w ->
  getDetachedInstances w = (w1, Returned insts) ->
  List.find (fun x => String.eqb (instanceName x) name) insts = Some i ->
  (forall x, In x insts -> instanceName x = name -> x = i) ->
  stopDetachedInstance name w = (w2, out) ->
  stopDetachedInstance name w2 = (w2, Returned false).
Proof.
  intros Hwf Hrun Hfound Huniq Hstop.
  assert (Hfind : findDetachedInstanceByName name w = (w1, Returned (Some i)))
    by (rewrite findDetachedInstanceByName_spec, Hrun, Hfound; reflexivity).
  rewrite (stopDetachedInstance_found name w w1 i Hfind) in Hstop.
  injection Hstop as <- _.
  set (w2 := evict (Num (pid i)) (signalled (pid i) w1)).
  pose proof (getDetachedInstances_frame _ _ _ Hrun) as (_ & Hprocs & _).
  apply find_some in Hfound as [Hin _].
  pose proof (found_record_file w w1 insts i Hwf Hrun Hin) as Hvi.
  assert (Hlive : forall f, is_Some (fs w2 !! f) ->
             exists x, verdict (processes w2) f w2 = Live x
                       /\ In x insts /\ x <> i).
  { intros f [c Hc].
    change (delete (number_toString (Num (pid i))) (fs w1) !! f = Some c) in Hc.
    apply lookup_delete_Some in Hc as [Hne Hc].
    destruct (after_pass_all_live w w1 insts Hwf Hrun f (ex_intro _ c Hc))
      as (x & Hv & Hfs & Hx).
    exists x. split; [|split; [exact Hx|]].
    - change (processes w2) with (processes w1). rewrite Hprocs, <- Hv.
      apply verdict_ext.
      change (delete (number_toString (Num (pid i))) (fs w1) !! f = fs w !! f).
      now rewrite lookup_delete_ne.
    - intros ->.
      destruct (verdict_Live _ _ _ _ Hv) as (c' & q & Hc' & Hparse & _).
      destruct (Hwf f c' Hc') as [Hcan Hpf]. specialize (Hpf i Hparse).
      unfold canonical in Hcan. rewrite Hpf in Hcan. congruence. }
  unfold stopDetachedInstance, bind at 1.
  rewrite findDetachedInstanceByName_spec, getDetachedInstances_spec.
  rewrite reconcileFiles_all_live.
  2:{ intros f Hf. apply readdir_In in Hf.
      destruct (Hlive f Hf) as (x & Hx & _). eauto. }
  destruct (List.find _ (sort _ _)) as [x|] eqn:Hx; [|reflexivity].
  exfalso. apply find_some in Hx as [Hx Hname].
  apply String.eqb_eq in Hname.
  apply sort_In, live_records_In in Hx as (f & Hf & Hv).
  apply readdir_In in Hf. destruct (Hlive f Hf) as (y & Hy & Hyin & Hne).
  assert (y = x) by congruence. subst y.
  apply Hne. now apply Huniq.
Qed.
End MoreStop.

Lemma stop_touches_only_the_instance_witness :
  sigterm (fst (stopDetachedInstance (json := Demo.codec) "alpha"
                  (Demo.two_live (fun _ => false))))
  = sigterm (fst (findDetachedInstanceByName (json := Demo.codec) "alpha"
                    (Demo.two_live (fun _ => false)))) ++ [100]
  /\ fs (fst (stopDetachedInstance (json := Demo.codec) "alpha"
                (Demo.two_live (fun _ => false)))) !! "200" = Some "{beta}".
Proof.
  destruct (stop_touches_only_the_instance (json := Demo.codec) "alpha"
              (Demo.two_live (fun _ => false))
              (fst (findDetachedInstanceByName (json := Demo.codec) "alpha"
                      (Demo.two_live (fun _ => false))))
              Demo.alpha
              (fst (stopDetachedInstance (json := Demo.codec) "alpha"
                      (Demo.two_live (fun _ => false))))
              (snd (stopDetachedInstance (json := Demo.codec) "alpha"
                      (Demo.two_live (fun _ => false)))))
    as (Hsig & _ & Hothers).
  - apply registry_wf_check_sound. vm_compute. reflexivity.
  - vm_compute. reflexivity.
  - apply surjective_pairing.
  - split; [exact Hsig|].
    apply (Hothers "200" "{beta}" Demo.beta).
    + vm_compute. reflexivity.
    + vm_compute. reflexivity.
    + discriminate.
Defined.

Lemma stop_twice_reports_not_found_witness :
  stopDetachedInstance (json := Demo.codec) "alpha"
    (fst (stopDetachedInstance (json := Demo.codec) "alpha"
            (Demo.two_live (fun _ => true))))
  = (fst (stopDetachedInstance (json := Demo.codec) "alpha"
            (Demo.two_live (fun _ => true))),
     Returned false).
Proof.
  apply (stop_twice_reports_not_found (json := Demo.codec) "alpha"
           (Demo.two_live (fun _ => true))
           (fst (getDetachedInstances (json := Demo.codec)
                   (Demo.two_live (fun _ => true))))
           [Demo.beta; Demo.alpha] Demo.alpha
           (fst (stopDetachedInstance (json := Demo.codec) "alpha"
                   (Demo.two_live (fun _ => true))))
           (snd (stopDetachedInstance (json := Demo.codec) "alpha"
                   (Demo.two_live (fun _ => true))))).
  - apply registry_wf_check_sound. vm_compute. reflexivity.
  - vm_compute. reflexivity.
  - reflexivity.
  - intros x [<- | [<- | []]] Hname; [discriminate Hname | reflexivity].
  - apply surjective_pairing.
Defined.

Lemma getDetachedInstances_returns_live_records_witness :
  snd (getDetachedInstances (json := Demo.codec) Demo.one_stale)
  = Returned [Demo.alpha]
  /\ [Demo.alpha]
     = sort by_startTime
         (live_records (json := Demo.codec) (processes Demo.one_stale)
            (map_to_list (fs Demo.one_stale)).*1 Demo.one_stale).
Proof.
  split; [vm_compute; reflexivity|].
  apply (getDetachedInstances_returns_live_records (json := Demo.codec)
           Demo.one_stale
           (fst (getDetachedInstances (json := Demo.codec) Demo.one_stale))
           [Demo.alpha]).
  - apply registry_wf_check_sound. vm_compute. reflexivity.
  - vm_compute. reflexivity.
Defined.

Lemma dead_process_file_is_evicted_witness :
  fs (fst (getDetachedInstances (json := Demo.codec) Demo.one_stale)) !! "300"
  = None
  /\ forall r, JSON_parse (JSON := Demo.codec) "{gamma}" = Some r ->
       ~ In r [Demo.alpha].
Proof.
  apply (dead_process_file_is_evicted (json := Demo.codec) Demo.one_stale
           "300" "{gamma}"
           (fst (getDetachedInstances (json := Demo.codec) Demo.one_stale))
           [Demo.alpha]).
  - apply registry_wf_check_sound. vm_compute. reflexivity.
  - vm_compute. reflexivity.
  - reflexivity.
  - vm_compute. reflexivity.
Defined.

Lemma live_instance_is_kept_witness :
  In Demo.alpha [Demo.alpha]
  /\ fs (fst (getDetachedInstances (json := Demo.codec) Demo.one_stale)) !! "100"
     = Some "{alpha}".
Proof.
  apply (live_instance_is_kept (json := Demo.codec) Demo.one_stale
           "100" "{alpha}" Demo.alpha (Demo.proc 100 "node ganache")
           (fst (getDetachedInstances (json := Demo.codec) Demo.one_stale))
           [Demo.alpha]).
  - apply registry_wf_check_sound. vm_compute. reflexivity.
  - vm_compute. reflexivity.
  - reflexivity.
  - reflexivity.
  - reflexivity.
  - vm_compute. reflexivity.
Defined.

Lemma getDetachedInstances_outcome_witness :
  SystemError "ESRCH" = SystemError "ESRCH"
  /\ exists f n,
       is_Some (fs Demo.corrupt_unreachable !! f)
       /\ verdict (json := Demo.codec) (processes Demo.corrupt_unreachable) f
            Demo.corrupt_unreachable = Corrupt n
       /\ deliverable Demo.corrupt_unreachable n = false.
Proof.
  apply (getDetachedInstances_outcome (json := Demo.codec)
           Demo.corrupt_unreachable
           (fst (getDetachedInstances (json := Demo.codec)
                   Demo.corrupt_unreachable))
           (Thrown (SystemError "ESRCH"))).
  - apply registry_wf_check_sound. vm_compute. reflexivity.
  - vm_compute. reflexivity.
Defined.

Lemma getDetachedInstances_signals_only_unreadable_witness :
  exists s,
    sigterm (fst (getDetachedInstances (json := Demo.codec) Demo.pid_reused))
    = sigterm Demo.pid_reused ++ s
    /\ forall n, In n s ->
         (exists f, is_Some (fs Demo.pid_reused !! f)
                    /\ verdict (json := Demo.codec) (processes Demo.pid_reused)
                         f Demo.pid_reused = Corrupt n)
         /\ forall f content r,
              fs Demo.pid_reused !! f = Some content ->
              JSON_parse (JSON := Demo.codec) content = Some r ->
              pid r <> n.
Proof.
  apply (getDetachedInstances_signals_only_unreadable (json := Demo.codec)
           Demo.pid_reused
           (fst (getDetachedInstances (json := Demo.codec) Demo.pid_reused))
           (snd (getDetachedInstances (json := Demo.codec) Demo.pid_reused))).
  - apply registry_wf_check_sound. vm_compute. reflexivity.
  - apply surjective_pairing.
Defined.

Lemma getDetachedInstances_twice_witness :
  exists insts2,
    getDetachedInstances (json := Demo.codec)
      (fst (getDetachedInstances (json := Demo.codec) Demo.one_stale))
    = (fst (getDetachedInstances (json := Demo.codec) Demo.one_stale),
       Returned insts2)
    /\ forall x, In x insts2 <-> In x [Demo.alpha].
Proof.
  apply (getDetachedInstances_twice (json := Demo.codec) Demo.one_stale
           (fst (getDetachedInstances (json := Demo.codec) Demo.one_stale))
           [Demo.alpha]).
  - apply registry_wf_check_sound. vm_compute. reflexivity.
  - vm_compute. reflexivity.
Defined.

(** ** More on the spawner *)

Lemma fork_frame module childArgs w w2 child :
  fork module childArgs w = (w2, Returned child) ->
  child = os_child w /\ fs w2 = fs w /\ draws w2 = draws w
  /\ clock w2 = clock w /\ deliverable w2 = deliverable w
  /\ sigterm w2 = sigterm w /\ console w2 = console w
  /\ forked w2 = forked w ++ [(module, childArgs)].
Proof.
  unfold fork. destruct (child_pid (os_child w)); intros [= <- <-];
    repeat split; reflexivity.
Qed.

Lemma awaitReady_returned events :
  forall w w' u, awaitReady events w = (w', Returned u) -> w' = w.
Proof.
  induction events as [|ev rest IH]; intros w w' u; simpl; [discriminate|].
  destruct ev as [m|err|code].
  - destruct (is_ready_message m); [|apply IH].
    unfold ret. now intros [= <-].
  - unfold bind, console_error. discriminate.
  - discriminate.
Qed.

Lemma nameLoop_sound tape names name rest :
  nameLoop tape names = Some (name, rest) ->
  ~ In name names /\ exists skipped, tape = skipped ++ name :: rest
                                  /\ Forall (fun n => In n names) skipped.
Proof.
  revert name rest. induction tape as [|d tape IH]; intros name rest; simpl;
    [discriminate|].
  destruct (indexOf names d =? -1) eqn:Hi; simpl.
  - intros [= <- <-]. apply Z.eqb_eq, indexOf_absent in Hi.
    split; [assumption|]. exists []. split; [reflexivity | constructor].
  - intros Hloop. destruct (IH _ _ Hloop) as (Hun & skipped & -> & Hsk).
    split; [assumption|]. exists (d :: skipped). split; [reflexivity|].
    constructor; [|assumption].
    apply Z.eqb_neq in Hi. destruct (in_dec string_dec d names) as [Hin | Hnin];
      [assumption|]. exfalso. now apply Hi, indexOf_absent.
Qed.

Lemma get_prop_reads o key w w' v :
  get_prop o key w = (w', Returned v) -> reads o key v.
Proof.
  intros Hget w0. destruct o; simpl in *; unfold throw, ret in *;
    try discriminate; now injection Hget as _ <-.
Qed.

Section MoreSpawner.
Context {json : JSON}.

(** What a start that returns has done, step by step. *)
Lemma startDetachedInstance_returned module args ver w w' inst :
  startDetachedInstance module args ver w = (w', Returned inst) ->
  exists w2 p w4 insts rest,
    fork module (createFlatChildArgs args) w = (w2, Returned (os_child w))
    /\ child_pid (os_child w) = Some (Ps.pid p)
    /\ List.find (fun q => Ps.pid q =? Ps.pid p) (processes w2) = Some p
    /\ getDetachedInstances w2 = (w4, Returned insts)
    /\ nameLoop (draws w) (map instanceName insts)
       = Some (instanceName inst, rest)
    /\ pid inst = Ps.pid p /\ cmd inst = Ps.cmd p
    /\ startTime inst = clock w /\ version inst = ver
    /\ reads args "flavor" (flavor inst)
    /\ (exists server,
          reads args "server" server /\ reads server "host" (host inst)
          /\ reads server "port" (port inst))
    /\ w' = set_fs (insert (number_toString (Num (Ps.pid p)))
                           (JSON_stringify inst))
                   (set_draws rest w4).
Proof.
  unfold startDetachedInstance. intros Hrun.
  apply bind_inv in Hrun
    as [(w1 & fl & H1 & Hrun) | [(? & _ & Hd) | (_ & Hd)]]; try discriminate Hd.
  pose proof (get_prop_inv _ _ _ _ _ H1) as [-> _].
  apply bind_inv in Hrun
    as [(w2 & child & H2 & Hrun) | [(? & _ & Hd) | (_ & Hd)]]; try discriminate Hd.
  pose proof (fork_frame _ _ _ _ _ H2) as (-> & Hfs2 & Hdr2 & Hck2 & _).
  apply bind_inv in Hrun
    as [(w3 & ps & H3 & Hrun) | [(? & _ & Hd) | (_ & Hd)]]; try discriminate Hd.
  injection H3 as <- <-.
  apply bind_inv in Hrun
    as [(w3 & c & H4 & Hrun) | [(? & _ & Hd) | (_ & Hd)]]; try discriminate Hd.
  destruct (List.find _ (processes w2)) as [p|] eqn:Hfind; [|discriminate].
  injection H4 as <- <-.
  pose proof (find_some _ _ Hfind) as [_ Hpid].
  destruct (child_pid (os_child w)) as [n|] eqn:Hchild; [|discriminate].
  apply Z.eqb_eq in Hpid. subst n.
  apply bind_inv in Hrun
    as [(w4 & insts & H5 & Hrun) | [(? & _ & Hd) | (_ & Hd)]]; try discriminate Hd.
  pose proof (getDetachedInstances_frame _ _ _ H5)
    as (_ & _ & _ & _ & Hck4 & Hdr4 & _).
  apply bind_inv in Hrun
    as [(w5 & name & H6 & Hrun) | [(? & _ & Hd) | (_ & Hd)]]; try discriminate Hd.
  unfold chooseInstanceName in H6. rewrite Hdr4, Hdr2 in H6.
  destruct (nameLoop (draws w) (map instanceName insts)) as [[name' rest]|] eqn:Hloop;
    [|discriminate].
  injection H6 as <- <-.
  apply bind_inv in Hrun
    as [(w6 & u & H7 & Hrun) | [(? & _ & Hd) | (_ & Hd)]]; try discriminate Hd.
  apply awaitReady_returned in H7. subst w6.
  apply bind_inv in Hrun
    as [(w7 & now & H8 & Hrun) | [(? & _ & Hd) | (_ & Hd)]]; try discriminate Hd.
  injection H8 as <- <-.
  apply bind_inv in Hrun
    as [(w7 & server & H9 & Hrun) | [(? & _ & Hd) | (_ & Hd)]]; try discriminate Hd.
  pose proof (get_prop_inv _ _ _ _ _ H9) as [-> _].
  apply bind_inv in Hrun
    as [(w7 & host & H10 & Hrun) | [(? & _ & Hd) | (_ & Hd)]]; try discriminate Hd.
  pose proof (get_prop_inv _ _ _ _ _ H10) as [-> _].
  apply bind_inv in Hrun
    as [(w7 & port & H11 & Hrun) | [(? & _ & Hd) | (_ & Hd)]]; try discriminate Hd.
  pose proof (get_prop_inv _ _ _ _ _ H11) as [-> _].
  unfold bind, writeFileSync, ret in Hrun. injection Hrun as <- <-.
  pose proof (get_prop_reads _ _ _ _ _ H1) as R1.
  pose proof (get_prop_reads _ _ _ _ _ H9) as R9.
  pose proof (get_prop_reads _ _ _ _ _ H10) as R10.
  pose proof (get_prop_reads _ _ _ _ _ H11) as R11.
  exists w2, p, w4, insts, rest. simpl.
  repeat split; try assumption; try reflexivity; try congruence.
  exists server. repeat split; assumption.
Qed.
End MoreSpawner.

Section StartThenList.
Context {json : JSON}.

(** X17. A start that returns has forked once, with the module and the
    flattened arguments; its record carries a name the generator drew and
    that no instance of the discovery it ran carries, the pid of the child,
    the time of the clock and the version it was given; and the registry is
    the one that discovery left, with the file of the record written over
    it. *)
Theorem start_returns_fresh_record module args ver w w' inst :
  startDetachedInstance module args ver w = (w', Returned inst) ->
  exists w2 w4 insts,
    fork module (createFlatChildArgs args) w = (w2, Returned (os_child w))
    /\ getDetachedInstances w2 = (w4, Returned insts)
    /\ ~ In (instanceName inst) (map instanceName insts)
    /\ In (instanceName inst) (draws w)
    /\ child_pid (os_child w) = Some (pid inst)
    /\ startTime inst = clock w /\ version inst = ver
    /\ forked w' = forked w ++ [(module, createFlatChildArgs args)]
    /\ fs w' = <[number_toString (Num (pid inst)) := JSON_stringify inst]> (fs w4)
    /\ fs w4 ⊆ fs w.
Proof.
  intros Hrun.
  destruct (startDetachedInstance_returned _ _ _ _ _ _ Hrun)
    as (w2 & p & w4 & insts & rest & Hfork & Hchild & Hfind & Hlist & Hloop
        & Hpid & Hcmd & Htime & Hver & Hflavor & _ & ->).
  pose proof (fork_frame _ _ _ _ _ Hfork) as (_ & Hfs2 & _ & _ & _ & _ & _ & Hfk).
  pose proof (getDetachedInstances_frame _ _ _ Hlist)
    as (Hsub & _ & _ & _ & _ & _ & _ & Hfk4).
  destruct (nameLoop_sound _ _ _ _ Hloop) as (Hunused & skipped & Htape & _).
  exists w2, w4, insts. repeat split; try assumption.
  - rewrite Htape. apply in_or_app. right. now left.
  - now rewrite Hpid.
  - simpl. now rewrite Hfk4, Hfk.
  - simpl. now rewrite Hpid.
  - now rewrite <- Hfs2.
Qed.

(** X18. Start, then list. From a registry that keeps its invariant, and
    with a record that [JSON.parse] reads back from what [JSON.stringify]
    wrote, a start that returns leaves a registry that keeps the invariant,
    and the discovery that follows returns, has the new record in its
    result and finds nothing to evict. *)
Theorem start_then_list_finds_record module args ver w w' inst :
  registry_wf w ->
  startDetachedInstance module args ver w = (w', Returned inst) ->
  JSON_parse (JSON_stringify inst) = Some inst ->
  registry_wf w'
  /\ exists insts',
       getDetachedInstances w' = (w', Returned insts') /\ In inst insts'.
Proof.
  intros Hwf Hrun Hjson.
  destruct (startDetachedInstance_returned _ _ _ _ _ _ Hrun)
    as (w2 & p & w4 & insts & rest & Hfork & Hchild & Hfind & Hlist & Hloop
        & Hpid & Hcmd & Htime & Hver & Hflavor & _ & Hw').
  pose proof (fork_frame _ _ _ _ _ Hfork) as (_ & Hfs2 & _).
  pose proof (getDetachedInstances_frame _ _ _ Hlist) as (Hsub & Hprocs & _).
  assert (Hwf2 : registry_wf w2).
  { apply (registry_wf_only_removes w); [assumption | now rewrite Hfs2]. }
  set (file := number_toString (Num (Ps.pid p))) in *.
  assert (Hfs' : fs w' = <[file := JSON_stringify inst]> (fs w4))
    by (subst w'; reflexivity).
  assert (Hprocs' : processes w' = processes w2)
    by (subst w'; exact Hprocs).
  assert (Hname : parseInt file = Num (Ps.pid p)) by apply parseInt_pretty.
  assert (Hnew : verdict (processes w') file w' = Live inst).
  { unfold verdict. rewrite Hname, Hprocs'.
    change (List.find (fun q => number_eqb (Num (Ps.pid q)) (Num (Ps.pid p)))
                      (processes w2))
      with (List.find (fun q => Ps.pid q =? Ps.pid p) (processes w2)).
    rewrite Hfind, Hfs', lookup_insert_eq, Hjson, Hcmd, String.eqb_refl.
    reflexivity. }
  assert (Hold : forall f, f <> file -> is_Some (fs w' !! f) ->
             exists i, verdict (processes w') f w' = Live i).
  { intros f Hne Hf. rewrite Hfs', lookup_insert_ne in Hf by congruence.
    destruct (after_pass_all_live w2 w4 insts Hwf2 Hlist f Hf)
      as (i & Hv & Hkept & _).
    exists i. rewrite Hprocs', <- Hv. apply verdict_ext.
    rewrite Hfs', lookup_insert_ne by congruence. exact Hkept. }
  split.
  - intros f c Hc. rewrite Hfs' in Hc. apply lookup_insert_Some in Hc
      as [(<- & <-) | (Hne & Hc)].
    + split; [unfold canonical; now rewrite Hname|].
      intros r Hr. rewrite Hjson in Hr. injection Hr as <-. now rewrite Hpid.
    + apply (Hwf2 f c). eapply lookup_weaken; eassumption.
  - exists (sort by_startTime
              (live_records (processes w') (map_to_list (fs w')).*1 w')).
    split.
    + rewrite getDetachedInstances_spec, reconcileFiles_all_live; [reflexivity|].
      intros f Hf. apply readdir_In in Hf.
      destruct (decide (f = file)) as [-> | Hne]; [eauto | now apply Hold].
    + apply sort_In, live_records_In. exists file. split; [|exact Hnew].
      apply readdir_In. rewrite Hfs', lookup_insert_eq. eauto.
Qed.
End StartThenList.

Lemma start_returns_fresh_record_witness :
  exists w2 w4 insts,
    fork "ganache" (createFlatChildArgs Demo.args) Demo.child_ready
    = (w2, Returned (os_child Demo.child_ready))
    /\ getDetachedInstances (json := Demo.codec) w2 = (w4, Returned insts)
    /\ ~ In (instanceName Demo.alpha) (map instanceName insts)
    /\ In (instanceName Demo.alpha) (draws Demo.child_ready)
    /\ child_pid (os_child Demo.child_ready) = Some (pid Demo.alpha)
    /\ startTime Demo.alpha = clock Demo.child_ready
    /\ version Demo.alpha = "7.0.0"
    /\ forked (fst (startDetachedInstance (json := Demo.codec) "ganache"
                      Demo.args "7.0.0" Demo.child_ready))
       = forked Demo.child_ready ++ [("ganache", createFlatChildArgs Demo.args)]
    /\ fs (fst (startDetachedInstance (json := Demo.codec) "ganache"
                  Demo.args "7.0.0" Demo.child_ready))
       = <[number_toString (Num (pid Demo.alpha))
           := JSON_stringify (JSON := Demo.codec) Demo.alpha]> (fs w4)
    /\ fs w4 ⊆ fs Demo.child_ready.
Proof.
  apply (start_returns_fresh_record (json := Demo.codec) "ganache" Demo.args
           "7.0.0" Demo.child_ready
           (fst (startDetachedInstance (json := Demo.codec) "ganache"
                   Demo.args "7.0.0" Demo.child_ready))
           Demo.alpha).
  vm_compute. reflexivity.
Defined.

Lemma start_then_list_finds_record_witness :
  registry_wf (json := Demo.codec)
    (fst (startDetachedInstance (json := Demo.codec) "ganache" Demo.args
            "7.0.0" Demo.child_ready))
  /\ exists insts',
       getDetachedInstances (json := Demo.codec)
         (fst (startDetachedInstance (json := Demo.codec) "ganache" Demo.args
                 "7.0.0" Demo.child_ready))
       = (fst (startDetachedInstance (json := Demo.codec) "ganache" Demo.args
                 "7.0.0" Demo.child_ready),
          Returned insts')
       /\ In Demo.alpha insts'.
Proof.
  apply (start_then_list_finds_record (json := Demo.codec) "ganache" Demo.args
           "7.0.0" Demo.child_ready
           (fst (startDetachedInstance (json := Demo.codec) "ganache"
                   Demo.args "7.0.0" Demo.child_ready))
           Demo.alpha).
  - apply registry_wf_check_sound. vm_compute. reflexivity.
  - vm_compute. reflexivity.
  - reflexivity.
Defined.

(** ** The name loop, in full *)

Lemma nameLoop_complete skipped name rest names :
  Forall (fun n => In n names) skipped -> ~ In name names ->
  nameLoop (skipped ++ name :: rest) names = Some (name, rest).
Proof.
  intros Hsk Hun. induction Hsk as [|d skipped Hd Hsk IH]; simpl.
  - apply indexOf_absent in Hun. now rewrite Hun.
  - destruct (indexOf names d =? -1) eqn:Hi; simpl; [|exact IH].
    apply Z.eqb_eq, indexOf_absent in Hi. contradiction.
Qed.

(** X19. The loop returns the first draw that is not in use: the draws
    before it are all in use, the draws after it are left for later; and
    it gives no name exactly when every recorded draw is in use. *)
Theorem nameLoop_first_unused (tape names : list string) :
  (forall name rest,
      nameLoop tape names = Some (name, rest)
      <-> exists skipped,
            tape = skipped ++ name :: rest
            /\ Forall (fun n => In n names) skipped /\ ~ In name names)
  /\ (nameLoop tape names = None <-> Forall (fun n => In n names) tape).
Proof.
  split.
  - intros name rest. split.
    + intros Hloop. destruct (nameLoop_sound _ _ _ _ Hloop)
        as (Hun & skipped & Htape & Hsk). eauto.
    + intros (skipped & -> & Hsk & Hun). now apply nameLoop_complete.
  - induction tape as [|d tape IH]; simpl.
    + split; [constructor | reflexivity].
    + destruct (indexOf names d =? -1) eqn:Hi; simpl.
      * apply Z.eqb_eq, indexOf_absent in Hi. split; [discriminate|].
        intros Hall. inversion Hall; subst. contradiction.
      * rewrite IH. apply Z.eqb_neq in Hi.
        assert (Hd : In d names).
        { destruct (in_dec string_dec d names) as [Hin | Hnin]; [assumption|].
          exfalso. now apply Hi, indexOf_absent. }
        split; [now constructor | intros Hall; now inversion Hall].
Qed.

Section MoreStart.
Context {json : JSON}.

(** X20. The record of a start that returns takes its flavor, its host and
    its port from the arguments: [args.flavor], [args.server.host] and
    [args.server.port], as they read. *)
Theorem start_record_fields_from_args module args ver w w' inst :
  startDetachedInstance module args ver w = (w', Returned inst) ->
  reads args "flavor" (flavor inst)
  /\ exists server,
       reads args "server" server
       /\ reads server "host" (host inst)
       /\ reads server "port" (port inst).
Proof.
  intros Hrun.
  destruct (startDetachedInstance_returned _ _ _ _ _ _ Hrun)
    as (w2 & p & w4 & insts & rest & _ & _ & _ & _ & _ & _ & _ & _ & _
        & Hflavor & Hserver & _).
  split; assumption.
Qed.

(** X21. Arguments without a [server] object: the read of its host throws
    once the handshake is over, so the start never returns a record and
    writes no file, even when the child became ready. *)
Theorem start_without_server_never_registers module args ver w w' out :
  (reads args "server" JUndefined \/ reads args "server" JNull) ->
  startDetachedInstance module args ver w = (w', out) ->
  (forall inst, out <> Returned inst) /\ fs w' ⊆ fs w.
Proof.
  intros Hserver Hrun.
  assert (Hnot : forall inst, out <> Returned inst).
  { intros inst ->.
    destruct (startDetachedInstance_returned _ _ _ _ _ _ Hrun)
      as (w2 & p & w4 & insts & rest & _ & _ & _ & _ & _ & _ & _ & _ & _
          & _ & (server & Hs & Hhost & _) & _).
    specialize (Hs w). specialize (Hhost w).
    destruct Hserver as [Hu | Hn].
    - rewrite (Hu w) in Hs. injection Hs as <-. discriminate Hhost.
    - rewrite (Hn w) in Hs. injection Hs as <-. discriminate Hhost. }
  split; [exact Hnot|].
  destruct (startDetachedInstance_inv _ _ _ _ _ _ Hrun)
    as [[_ Hsub] | [(_ & Hsub & _) | (inst & m & -> & _)]]; try assumption.
  now destruct (Hnot inst).
Qed.

(** X22. A file that cannot be parsed while a process holds its pid, in a
    pass that returns: the warning that names the pid is on the console,
    [process.kill] was called on the pid and delivered the signal, and the
    file is gone. *)
Theorem unreadable_file_is_signalled_and_evicted w f content p w' insts :
  registry_wf w ->
  fs w !! f = Some content ->
  JSON_parse content = None ->
  List.find (fun q => number_eqb (Num (Ps.pid q)) (parseInt f)) (processes w)
  = Some p ->
  getDetachedInstances w = (w', Returned insts) ->
  fs w' !! f = None
  /\ deliverable w (Ps.pid p) = true
  /\ (exists s, sigterm w' = sigterm w ++ s /\ In (Ps.pid p) s)
  /\ (exists c, console w' = console w ++ c
                /\ In (corruption_warning (Num (Ps.pid p))) c).
Proof.
  intros Hwf Hf Hparse Hp Hrun.
  assert (Hv : verdict (processes w) f w = Corrupt (Ps.pid p))
    by (unfold verdict; now rewrite Hp, Hf, Hparse).
  destruct (getDetachedInstances_returns w w' insts Hwf Hrun) as [_ Heach].
  specialize (Heach f (ex_intro _ content Hf)). now rewrite Hv in Heach.
Qed.
End MoreStart.

Lemma nameLoop_first_unused_examples :
  nameLoop ["salty_cake"; "sweet_pie"; "sour_tart"] ["salty_cake"]
  = Some ("sweet_pie", ["sour_tart"])
  /\ nameLoop ["salty_cake"; "salty_cake"] ["salty_cake"] = None.
Proof. split; reflexivity. Qed.

Lemma start_record_fields_from_args_witness :
  reads Demo.args "flavor" (flavor Demo.alpha)
  /\ exists server,
       reads Demo.args "server" server
       /\ reads server "host" (host Demo.alpha)
       /\ reads server "port" (port Demo.alpha).
Proof.
  apply (start_record_fields_from_args (json := Demo.codec) "ganache" Demo.args
           "7.0.0" Demo.child_ready
           (fst (startDetachedInstance (json := Demo.codec) "ganache"
                   Demo.args "7.0.0" Demo.child_ready))
           Demo.alpha).
  vm_compute. reflexivity.
Defined.

Lemma start_without_server_never_registers_witness :
  (forall inst,
      snd (startDetachedInstance (json := Demo.codec) "ganache"
             (JObj [("flavor", JStr "ethereum")]) "7.0.0" Demo.child_ready)
      <> Returned inst)
  /\ fs (fst (startDetachedInstance (json := Demo.codec) "ganache"
                (JObj [("flavor", JStr "ethereum")]) "7.0.0" Demo.child_ready))
     ⊆ fs Demo.child_ready.
Proof.
  apply (start_without_server_never_registers (json := Demo.codec) "ganache"
           (JObj [("flavor", JStr "ethereum")]) "7.0.0" Demo.child_ready).
  - left. intros w. reflexivity.
  - apply surjective_pairing.
Defined.

Lemma unreadable_file_is_signalled_and_evicted_witness :
  fs (fst (getDetachedInstances (json := Demo.codec) Demo.corrupt_reachable))
    !! "400" = None
  /\ deliverable Demo.corrupt_reachable 400 = true
  /\ (exists s,
         sigterm (fst (getDetachedInstances (json := Demo.codec)
                         Demo.corrupt_reachable))
         = sigterm Demo.corrupt_reachable ++ s /\ In 400 s)
  /\ (exists c,
         console (fst (getDetachedInstances (json := Demo.codec)
                         Demo.corrupt_reachable))
         = console Demo.corrupt_reachable ++ c
         /\ In (corruption_warning (Num 400)) c).
Proof.
  apply (unreadable_file_is_signalled_and_evicted (json := Demo.codec)
           Demo.corrupt_reachable "400" "junk" (Demo.proc 400 "vim notes.txt")
           (fst (getDetachedInstances (json := Demo.codec)
                   Demo.corrupt_reachable))
           [Demo.alpha]).
  - apply registry_wf_check_sound. vm_compute. reflexivity.
  - vm_compute. reflexivity.
  - reflexivity.
  - reflexivity.
  - vm_compute. reflexivity.
Defined.

(** ** Where discovery and the spawner part from their claims *)

(** C2, where the code parts from it. The file [200] holds the record of
    beta, a live process holds the pid 200 under another command line, and
    the registry keeps its invariant; the file [100], read first, does not
    parse and the signal does not reach its process. The pass throws the
    error of the bare [process.kill] of its catch block before it comes to
    the file [200], which stays. It is the defect of C7. *)
Theorem reused_pid_file_survives_failed_pass :
  registry_wf (json := Demo.codec) Demo.reused_behind_corrupt
  /\ fs Demo.reused_behind_corrupt !! "200" = Some "{beta}"
  /\ JSON_parse (JSON := Demo.codec) "{beta}" = Some Demo.beta
  /\ List.find (fun q => Ps.pid q =? pid Demo.beta)
       (processes Demo.reused_behind_corrupt)
     = Some (Demo.proc 200 "vim todo.txt")
  /\ Ps.cmd (Demo.proc 200 "vim todo.txt") <> cmd Demo.beta
  /\ snd (getDetachedInstances (json := Demo.codec) Demo.reused_behind_corrupt)
     = Thrown (SystemError "ESRCH")
  /\ fs (fst (getDetachedInstances (json := Demo.codec)
                Demo.reused_behind_corrupt)) !! "200" = Some "{beta}".
Proof.
  split; [apply registry_wf_check_sound; vm_compute; reflexivity|].
  split; [vm_compute; reflexivity|].
  split; [reflexivity|]. split; [reflexivity|]. split; [discriminate|].
  split; vm_compute; reflexivity.
Qed.

